(** * giphy-search: the fetch orchestrator, the shared store and the
      placeholder animator

    A shallow embedding of

      - [src/context/GiphySearchContext.tsx]  (the provider: [withMinDelay],
        [fetchTrendingGifs], [handleSearch] alias [searchGifs], [clearError]),
      - [src/utils/handleSearch.ts], [handleTrendingGifs], [src/utils/minDelay.ts]
        (the stand-alone helpers with the module-level delay promise),
      - [useGiphySearchContext] (the consumer lookup),
      - [src/hooks/useAnimatedPlaceHolder.ts] (the typing animation).

    Conventions.  Strings are sequences of 8-bit code units.  A React state
    setter called with a plain value is a [write]; the state after a call is
    the fold of its writes.  An [async] function is cut at its single [await]:
    the statements before it run at the instant of the call, the rest runs at
    the instant the awaited promise settles.  Instants are logical
    milliseconds ([nat]); a timer created at [now] for [d] ms fires at
    [now + d + lag] for some lateness [lag >= 0]. *)

From Stdlib Require Import Bool Arith Lia List ZArith.
From Stdlib Require Import Ascii String.
Import ListNotations.
Local Open Scope string_scope.
Local Open Scope nat_scope.
Local Open Scope list_scope.

(* ================================================================== *)
(** ** JavaScript values that reach the code *)
(* ================================================================== *)

(** A parsed response body.  Numbers are kept as integers: the code only
    ever asks whether a body is truthy. *)
#[local] Unset Elimination Schemes.
Inductive json : Type :=
| JNull
| JBool (b : bool)
| JNum (n : Z)
| JStr (s : string)
| JArr (items : list json)
| JObj (fields : list (string * json)).
#[local] Set Elimination Schemes.

(** [None] is [undefined]. *)
Definition jsval : Type := option json.

(** [if (v)] *)
Definition truthy (v : jsval) : bool :=
  match v with
  | None => false
  | Some JNull => false
  | Some (JBool b) => b
  | Some (JNum n) => negb (Z.eqb n 0)
  | Some (JStr s) => negb (String.eqb s "")
  | Some (JArr _) => true
  | Some (JObj _) => true
  end.

(** Own property [k] of a parsed object; a key given twice keeps its last
    value, as [JSON.parse] does. *)
Fixpoint lookup_field (k : string) (fields : list (string * json)) : jsval :=
  match fields with
  | [] => None
  | (k', v) :: rest =>
      match lookup_field k rest with
      | Some later => Some later
      | None => if String.eqb k k' then Some v else None
      end
  end.

(** The thrown value: only its [message] is ever read. *)
Record exn : Type := Error { message : string }.

(** [v.k]: a [TypeError] on [undefined] and [null], [undefined] on the other
    primitives and on arrays (no JSON array has a property of the names read
    here), the field of an object. *)
Definition member (v : jsval) (k : string) : exn + jsval :=
  match v with
  | None => inl (Error ("Cannot read properties of undefined (reading '" ++ k ++ "')")%string)
  | Some JNull => inl (Error ("Cannot read properties of null (reading '" ++ k ++ "')")%string)
  | Some (JObj fields) => inr (lookup_field k fields)
  | Some _ => inr None
  end.

(** *** [String.prototype.trim] on 8-bit code units *)

Definition is_ws (c : ascii) : bool :=
  let n := nat_of_ascii c in
  ((n =? 9) || (n =? 10) || (n =? 11) || (n =? 12) || (n =? 13)
   || (n =? 32) || (n =? 160))%nat.

Fixpoint trimStart (s : string) : string :=
  match s with
  | EmptyString => EmptyString
  | String c rest => if is_ws c then trimStart rest else s
  end.

Fixpoint trimEnd (s : string) : string :=
  match s with
  | EmptyString => EmptyString
  | String c rest =>
      match trimEnd rest with
      | EmptyString => if is_ws c then EmptyString else String c EmptyString
      | kept => String c kept
      end
  end.

Definition trim (s : string) : string := trimEnd (trimStart s).

(** [!s] for a string [s]. *)
Definition str_falsy (s : string) : bool := String.eqb s "".

Fixpoint all_ws (s : string) : bool :=
  match s with
  | EmptyString => true
  | String c rest => is_ws c && all_ws rest
  end.

(* ================================================================== *)
(** ** Data model ([types.ts]) *)
(* ================================================================== *)

Record FixedWidth : Type := { fw_url : string; height : string; width : string }.
Record Images : Type := { fixed_width : FixedWidth }.
Record GifObject : Type :=
  { id : string; images : Images; url : string; bitly_url : string }.

(** The wire shape of one item and of a result list. *)
Definition gif_json (g : GifObject) : json :=
  JObj [ ("id", JStr (id g));
         ("images",
           JObj [ ("fixed_width",
                    JObj [ ("url", JStr (fw_url (fixed_width (images g))));
                           ("height", JStr (height (fixed_width (images g))));
                           ("width", JStr (width (fixed_width (images g)))) ]) ]);
         ("url", JStr (url g));
         ("bitly_url", JStr (bitly_url g)) ].

Definition gifs_json (l : list GifObject) : json := JArr (map gif_json l).

(** The three [useState] cells.  [gifs] is declared [GifObject[]] but holds
    whatever [setGifs] was handed at run time. *)
Record State : Type := { loading : bool; error : string; gifs : jsval }.

Definition initial : State :=
  {| loading := false; error := ""; gifs := Some (JArr []) |}.

(** A call of one of the setters. *)
Inductive write : Type :=
| SetLoading (b : bool)
| SetError (e : string)
| SetGifs (g : jsval).

Definition apply_write (s : State) (w : write) : State :=
  match w with
  | SetLoading b => {| loading := b; error := error s; gifs := gifs s |}
  | SetError e => {| loading := loading s; error := e; gifs := gifs s |}
  | SetGifs g => {| loading := loading s; error := error s; gifs := g |}
  end.

Definition apply_writes (s : State) (ws : list write) : State :=
  fold_left apply_write ws s.

(* ================================================================== *)
(** ** Statements that set state and may throw *)
(* ================================================================== *)

(** The writes performed, then either the thrown value or the result. *)
Definition eff (A : Type) : Type := list write * (exn + A).

Definition ret {A} (a : A) : eff A := ([], inr a).
Definition throw {A} (e : exn) : eff A := ([], inl e).
Definition lift {A} (r : exn + A) : eff A := ([], r).

Definition bind {A B} (m : eff A) (k : A -> eff B) : eff B :=
  match m with
  | (w, inl e) => (w, inl e)
  | (w, inr a) => let (w', r) := k a in (w ++ w', r)
  end.

(** [try { m } catch (e) { h e }] *)
Definition try_catch {A} (m : eff A) (h : exn -> eff A) : eff A :=
  match m with
  | (w, inl e) => let (w', r) := h e in (w ++ w', r)
  | (w, inr a) => (w, inr a)
  end.

(** [... finally { f }]: [f] runs on both exits and keeps the outcome of
    [m] unless it throws itself. *)
Definition finally {A} (m : eff A) (f : eff unit) : eff A :=
  match f with
  | (wf, inl e) => (fst m ++ wf, inl e)
  | (wf, inr _) => (fst m ++ wf, snd m)
  end.

Definition setLoading (b : bool) : eff unit := ([SetLoading b], inr tt).
Definition setError (e : string) : eff unit := ([SetError e], inr tt).
Definition setGifs (g : jsval) : eff unit := ([SetGifs g], inr tt).

Notation "x <- m ;; k" := (bind m (fun x => k))
  (at level 61, m at next level, right associativity).

(* ================================================================== *)
(** ** Promises on a logical clock *)
(* ================================================================== *)

Definition time : Type := nat.

Inductive settled (A : Type) : Type :=
| Fulfilled (v : A)
| Rejected (e : exn).
Arguments Fulfilled {A} v.
Arguments Rejected {A} e.

(** A promise either never settles or settles once, at an instant. *)
Inductive Promise (A : Type) : Type :=
| Never
| Settles (t : time) (r : settled A).
Arguments Never {A}.
Arguments Settles {A} t r.

(** [await p] inside a [try]. *)
Definition await {A} (r : settled A) : eff A :=
  match r with
  | Fulfilled v => ret v
  | Rejected e => throw e
  end.

(** [new Promise(resolve => setTimeout(() => resolve(true), d))] built at
    instant [now]; the timer fires [lag] ms late. *)
Definition timer_promise (now d lag : time) : Promise bool :=
  Settles (now + d + lag) (Fulfilled true).

(** [Promise.all([p, q])]: fulfilled when both are, with both values;
    rejected as soon as one is, with its reason ([p] first on a tie). *)
Definition promise_all2 {A B} (p : Promise A) (q : Promise B) : Promise (A * B) :=
  match p, q with
  | Settles tp (Fulfilled a), Settles tq (Fulfilled b) =>
      Settles (Nat.max tp tq) (Fulfilled (a, b))
  | Settles tp (Rejected e), Settles tq (Rejected e') =>
      if tp <=? tq then Settles tp (Rejected e) else Settles tq (Rejected e')
  | Settles tp (Rejected e), _ => Settles tp (Rejected e)
  | _, Settles tq (Rejected e') => Settles tq (Rejected e')
  | _, _ => Never
  end.

(** The promise of [async () => k (await p)] called at [now]: it cannot
    settle before it was called. *)
Definition then_ {A B} (now : time) (p : Promise A) (k : A -> B) : Promise B :=
  match p with
  | Never => Never
  | Settles t (Fulfilled a) => Settles (Nat.max now t) (Fulfilled (k a))
  | Settles t (Rejected e) => Settles (Nat.max now t) (Rejected e)
  end.

Definition resolves_with {A} (p : Promise A) (v : A) : Prop :=
  exists t, p = Settles t (Fulfilled v).

Definition rejects_with {A} (p : Promise A) (e : exn) : Prop :=
  exists t, p = Settles t (Rejected e).

Definition rejects {A} (p : Promise A) : Prop := exists e, rejects_with p e.

Definition settle_time {A} (p : Promise A) : option time :=
  match p with
  | Never => None
  | Settles t _ => Some t
  end.

(* ================================================================== *)
(** ** Requests and calls *)
(* ================================================================== *)

(** [axios.get(url, { params })] *)
Record request : Type :=
  { req_url : string; api_key : option string; q : option string; limit : nat }.

(** Of the axios response only [data], the parsed body, is read. *)
Record response : Type := { data : jsval }.

(** The remote side: what each request is answered with. *)
Definition network : Type := request -> Promise response.

Definition timeline : Type := list (time * write).

Definition stamp (t : time) (ws : list write) : timeline :=
  map (fun w => (t, w)) ws.

(** An [async] function with one [await]: [before] runs at [now]; when the
    awaited promise settles, [after] runs at that instant.  If it never
    settles nothing more happens. *)
Definition async {A} (now : time) (before : list write) (awaited : Promise A)
    (after : settled A -> eff unit) : timeline :=
  stamp now before ++
  match awaited with
  | Never => []
  | Settles t r => stamp (Nat.max now t) (fst (after r))
  end.

(** What one call did: the requests it sent and its writes in order. *)
Record run : Type := { issued : list request; writes : timeline }.

Definition commit (s : State) (r : run) : State :=
  apply_writes s (map snd (writes r)).

(** The state as a consumer sees it at instant [t] (writes stamped [<= t]). *)
Definition state_at (s : State) (r : run) (t : time) : State :=
  apply_writes s (map snd (filter (fun tw => fst tw <=? t) (writes r))).

(* ================================================================== *)
(** ** The provider ([src/context/GiphySearchContext.tsx]) *)
(* ================================================================== *)

Module Provider.

(** [withMinDelay(promise, delayTime)] called at [now]: a fresh timer
    promise, joined with [promise]; the first component is returned. *)
Definition withMinDelay {T} (promise : Promise T) (delayTime : time)
    (now lag : time) : Promise T :=
  let minDelay := timer_promise now delayTime lag in
  then_ now (promise_all2 promise minDelay) fst.

Definition delayTime : time := 1000.

Section WithKey.

(** [process.env.REACT_APP_GIPHY_API_KEY] *)
Variable API_KEY : option string.

Definition trending_request : request :=
  {| req_url := "https://api.giphy.com/v1/gifs/trending";
     api_key := API_KEY; q := None; limit := 50 |}.

Definition search_request (query : string) : request :=
  {| req_url := "https://api.giphy.com/v1/gifs/search";
     api_key := API_KEY; q := Some query; limit := 50 |}.

(** [fetchTrendingGifs], from the [await] on. *)
Definition fetchTrendingGifs_after (r : settled response) : eff unit :=
  finally
    (try_catch
       (response <- await r ;;
        if truthy (data response)
        then (d <- lift (member (data response) "data") ;; setGifs d)
        else throw (Error "No data when fetch trending GIFs"))
       (fun error =>
          setError ("Failed to fetch trending GIFs: " ++ message error)%string))
    (setLoading false).

Definition fetchTrendingGifs (net : network) (now lag : time) : run :=
  {| issued := [trending_request];
     writes :=
       async now [SetLoading true]
         (withMinDelay (net trending_request) delayTime now lag)
         fetchTrendingGifs_after |}.

(** [handleSearch] (exported as [searchGifs]), from the [await] on. *)
Definition handleSearch_after (r : settled response) : eff unit :=
  finally
    (try_catch
       (response <- await r ;;
        if truthy (data response)
        then (d <- lift (member (data response) "data") ;; setGifs d)
        else throw (Error "No data when search for a GIF"))
       (fun error =>
          setError ("Failed to search for a GIF: " ++ message error)%string))
    (setLoading false).

Definition handleSearch (net : network) (now lag : time) (query : string) : run :=
  {| issued := [search_request query];
     writes :=
       async now []
         (withMinDelay (net (search_request query)) delayTime now lag)
         handleSearch_after |}.

Definition searchGifs := handleSearch.

End WithKey.

(** [clearError]: synchronous. *)
Definition clearError (now : time) : run :=
  {| issued := []; writes := stamp now [SetError ""] |}.

End Provider.

(* ================================================================== *)
(** ** The stand-alone helpers ([src/utils]) *)
(* ================================================================== *)

Module Utils.

Definition delayTime : time := 1000.

(** [minDelay.ts]: one promise for the whole module, built when the
    module is loaded, at instant [loaded]. *)
Definition minDelay (loaded lag : time) : Promise bool :=
  timer_promise loaded delayTime lag.

Definition search_request (API_KEY query : string) : request :=
  {| req_url := "https://api.giphy.com/v1/gifs/search";
     api_key := Some API_KEY; q := Some query; limit := 50 |}.

Definition trending_request (API_KEY : string) : request :=
  {| req_url := "https://api.giphy.com/v1/gifs/trending";
     api_key := Some API_KEY; q := None; limit := 50 |}.

(** [handleSearch], from the [await] on. *)
Definition handleSearch_after (r : settled (response * bool)) : eff unit :=
  finally
    (try_catch
       (both <- await r ;;
        let response := fst both in
        if truthy (data response)
        then (d <- lift (member (data response) "data") ;; setGifs d)
        else setError "Failed to fetch searched GIFS")
       (fun err => setError "Failed to fetch searched GIFs"))
    (setLoading false).

(** [handleSearch(API_KEY, query, setLoading, setError, setGifs)] called
    at [now]; [gate] is the imported [minDelay]. *)
Definition handleSearch (gate : Promise bool) (net : network) (now : time)
    (API_KEY query : string) : run :=
  if str_falsy (trim query)
  then {| issued := []; writes := [] |}
  else
    {| issued := [search_request API_KEY query];
       writes :=
         async now [SetLoading true; SetError ""]
           (promise_all2 (net (search_request API_KEY query)) gate)
           handleSearch_after |}.

(** [handleTrendingGifs], from the [await] on. *)
Definition handleTrendingGifs_after (r : settled (response * bool)) : eff unit :=
  finally
    (try_catch
       (both <- await r ;;
        let response := fst both in
        if truthy (data response)
        then (d <- lift (member (data response) "data") ;; setGifs d)
        else setError "Failed to fetch trending GIFS")
       (fun err => setError "Failed to fetch trending GIFs"))
    (setLoading false).

Definition handleTrendingGifs (gate : Promise bool) (net : network) (now : time)
    (API_KEY : string) : run :=
  {| issued := [trending_request API_KEY];
     writes :=
       async now [SetLoading true; SetError ""]
         (promise_all2 (net (trending_request API_KEY)) gate)
         handleTrendingGifs_after |}.

End Utils.

(* ================================================================== *)
(** ** The shared store and its lookup *)
(* ================================================================== *)

Module Context.

(** [GiphyContextObject]: the state and the three actions. *)
Record GiphyContextObject : Type :=
  { ctx_loading : bool;
    ctx_error : string;
    ctx_gifs : jsval;
    searchGifs : network -> time -> time -> string -> run;
    fetchTrendingGifs : network -> time -> time -> run;
    clearError : time -> run }.

(** The [value] object the provider builds on each render. *)
Definition value (API_KEY : option string) (s : State) : GiphyContextObject :=
  {| ctx_loading := loading s;
     ctx_error := error s;
     ctx_gifs := gifs s;
     searchGifs := Provider.handleSearch API_KEY;
     fetchTrendingGifs := Provider.fetchTrendingGifs API_KEY;
     clearError := Provider.clearError |}.

(** The components above a consumer, nearest first. *)
Inductive ancestor : Type :=
| ContextProvider (v : option GiphyContextObject)
| Component (name : string).

(** [createContext<GiphyContextObject | undefined>(undefined)] *)
Definition default : option GiphyContextObject := None.

(** [useContext(GiphySearchContext)]: the value of the nearest enclosing
    provider, the default without one. *)
Fixpoint useContext (above : list ancestor) : option GiphyContextObject :=
  match above with
  | [] => default
  | ContextProvider v :: _ => v
  | Component _ :: up => useContext up
  end.

(** What [GiphySearchProvider] puts around its children. *)
Definition GiphySearchProvider (API_KEY : option string) (s : State) : ancestor :=
  ContextProvider (Some (value API_KEY s)).

Definition useGiphySearchContext (above : list ancestor) : exn + GiphyContextObject :=
  match useContext above with
  | None => inl (Error "Context must be used with a GiphySearchContext")
  | Some context => inr context
  end.

Definition is_provider (a : ancestor) : bool :=
  match a with
  | ContextProvider _ => true
  | Component _ => false
  end.

End Context.

(* ================================================================== *)
(** ** The placeholder animator ([useAnimatedPlaceHolder]) *)
(* ================================================================== *)

(** [s.substring(from, to)]: both ends clamped to [0, length], swapped when
    out of order. *)
Definition js_substring (s : string) (from to : Z) : string :=
  let len := Z.of_nat (String.length s) in
  let clamp := fun z => Z.max 0 (Z.min z len) in
  let lo := Z.min (clamp from) (clamp to) in
  let hi := Z.max (clamp from) (clamp to) in
  String.substring (Z.to_nat lo) (Z.to_nat (hi - lo)) s.

Module Placeholder.

Record PState : Type :=
  { placeholder : string; isDeleted : bool; index : nat }.

(** The three [useState] initial values of a freshly mounted hook. *)
Definition mount : PState :=
  {| placeholder := ""; isDeleted := false; index := 0 |}.

Definition pauseDuration : nat := 1500.

(** What one run of the effect does: set state at once, or arm a timer
    whose callback sets state ([None]: the callback throws). *)
Inductive reaction : Type :=
| Immediately (next : PState)
| Timeout (ms : nat) (next : option PState).

(** [placeholder == current] where [current] may be [undefined]. *)
Definition same_text (placeholder : string) (current : option string) : bool :=
  match current with
  | None => false
  | Some c => String.eqb placeholder c
  end.

(** The body of [useEffect].  With an empty phrase list JavaScript's
    [% 0] is [NaN]; here the index then grows, and [phrases[index]] is
    [undefined] either way. *)
Definition effect (phrases : list string) (st : PState) : reaction :=
  let current := nth_error phrases (index st) in
  if negb (isDeleted st) && same_text (placeholder st) current then
    Timeout pauseDuration
      (Some {| placeholder := placeholder st; isDeleted := true; index := index st |})
  else if isDeleted st && String.eqb (placeholder st) "" then
    Immediately
      {| placeholder := placeholder st;
         isDeleted := false;
         index := (index st + 1) mod List.length phrases |}
  else
    let speed := if isDeleted st then 80 else 130 in
    let len := Z.of_nat (String.length (placeholder st)) in
    Timeout speed
      (match current with
       | None => None
       | Some current =>
           Some {| placeholder :=
                     if isDeleted st
                     then js_substring current 0 (len - 1)
                     else js_substring current 0 (len + 1);
                   isDeleted := isDeleted st;
                   index := index st |}
       end).

(** The state at which the hook comes to rest after a render: an
    immediate update is followed by one more run of the effect. *)
Definition rest (phrases : list string) (st : PState) : PState :=
  match effect phrases st with
  | Immediately next => next
  | Timeout _ _ => st
  end.

(** The pending timer fires. *)
Definition fire (phrases : list string) (st : PState) : PState :=
  match effect phrases st with
  | Timeout _ (Some next) => next
  | _ => st
  end.

(** How long the resting state [st] stays on screen. *)
Definition shown_for (phrases : list string) (st : PState) : nat :=
  match effect phrases st with
  | Timeout ms _ => ms
  | Immediately _ => 0
  end.

Definition tick (phrases : list string) (st : PState) : PState :=
  rest phrases (fire phrases st).

(** The resting state after [n] timer firings. *)
Fixpoint frame (phrases : list string) (n : nat) : PState :=
  match n with
  | 0 => rest phrases mount
  | S k => tick phrases (frame phrases k)
  end.

(** What the hook returns on the render of the [n]-th resting state. *)
Definition useAnimatedPlaceHolder (phrases : list string) (n : nat) : string :=
  placeholder (frame phrases n).

Definition visibleText : list string -> nat -> string := useAnimatedPlaceHolder.

End Placeholder.

(* ================================================================== *)
(** ** Sequences of store actions *)
(* ================================================================== *)

Module Store.

(** One use of the store by a consumer, with the network it met. *)
Inductive action : Type :=
| SubmitSearch (net : network) (now lag : time) (query : string)
| LoadTrending (net : network) (now lag : time)
| ClearError (now : time).

Section WithKey.

Variable API_KEY : option string.

Definition perform (a : action) : run :=
  match a with
  | SubmitSearch net now lag query => Provider.searchGifs API_KEY net now lag query
  | LoadTrending net now lag => Provider.fetchTrendingGifs API_KEY net now lag
  | ClearError now => Provider.clearError now
  end.

Definition settles {A} (p : Promise A) : bool :=
  match p with
  | Never => false
  | Settles _ _ => true
  end.

(** The action has run to its end: its request was answered. *)
Definition has_settled (a : action) : bool :=
  match a with
  | SubmitSearch net _ _ query => settles (net (Provider.search_request API_KEY query))
  | LoadTrending net _ _ => settles (net (Provider.trending_request API_KEY))
  | ClearError _ => true
  end.

(** The states a consumer can see between settled actions, from the
    provider's initial state. *)
Inductive reachable : State -> Prop :=
| reach_initial : reachable initial
| reach_action (s : State) (a : action) :
    reachable s -> has_settled a = true -> reachable (commit s (perform a)).

End WithKey.

End Store.

(* ================================================================== *)
(** ** Calls that overlap *)
(* ================================================================== *)

Module Overlap.

(** The store together with the writes that each call under way still has
    to perform, in its own order. *)
Record config : Type := { store : State; owed : list (list write) }.

Definition start : config := {| store := initial; owed := [] |}.

Section WithKey.

Variable API_KEY : option string.

(** A consumer starts an action that will settle, or one of the calls under
    way performs its next write. *)
Inductive step : config -> config -> Prop :=
| step_call (s : State) (calls : list (list write)) (a : Store.action) :
    Store.has_settled API_KEY a = true ->
    step {| store := s; owed := calls |}
         {| store := s;
            owed := map snd (writes (Store.perform API_KEY a)) :: calls |}
| step_write (s : State) (before after : list (list write)) (w : write)
    (rest : list write) :
    step {| store := s; owed := before ++ (w :: rest) :: after |}
         {| store := apply_write s w; owed := before ++ rest :: after |}.

Inductive steps : config -> config -> Prop :=
| steps_refl (c : config) : steps c c
| steps_more (c c' c'' : config) : steps c c' -> step c' c'' -> steps c c''.

End WithKey.

(** Every call has performed all its writes. *)
Definition quiescent (c : config) : Prop := Forall (fun ws => ws = []) (owed c).

Definition is_loading_write (w : write) : bool :=
  match w with
  | SetLoading _ => true
  | _ => false
  end.

(** The remaining writes end with [setLoading(false)]. *)
Definition closing (ws : list write) : Prop :=
  last ws (SetLoading true) = SetLoading false.

Definition harmless (ws : list write) : Prop :=
  closing ws \/ existsb is_loading_write ws = false.

Definition balanced (c : config) : Prop :=
  Forall harmless (owed c)
  /\ (loading (store c) = true -> Exists closing (owed c)).

End Overlap.

(* ================================================================== *)
(** ** Sample collaborators *)
(* ================================================================== *)

(** The instant at which a call made at [now] goes on after its [await],
    when the request is answered at [tp]. *)
Definition joined (now tp lag : time) : time :=
  Nat.max now (Nat.max tp (now + Provider.delayTime + lag)).

Definition touches_gifs (w : write) : bool :=
  match w with
  | SetGifs _ => true
  | _ => false
  end.

Definition sample_gif : GifObject :=
  {| id := "1";
     images := {| fixed_width :=
                    {| fw_url := "https://media.giphy.com/media/1/200w.gif";
                       height := "200"; width := "200" |} |};
     url := "https://giphy.com/gifs/1";
     bitly_url := "https://gph.is/1" |}.

(** A network that answers every request at [t] with [body]. *)
Definition answering (t : time) (body : jsval) : network :=
  fun _ => Settles t (Fulfilled {| data := body |}).

(** A network on which every request fails at [t]. *)
Definition failing (t : time) (msg : string) : network :=
  fun _ => Settles t (Rejected (Error msg)).

(** A network that never answers. *)
Definition silent : network := fun _ => Never.

(* ================================================================== *)
(** ** Two calls under way at once *)
(* ================================================================== *)



(* ================================================================== *)
(** ** The first helpers ([giphy-search/src/utils]) *)
(* ================================================================== *)

Module Legacy.

(** [new Promise(resolve => setTimeout(resolve, 500))], built inside the
    call, at [now]. *)
Definition minDelay (now lag : time) : Promise unit :=
  Settles (now + 500 + lag) (Fulfilled tt).

Section WithKey.

(** [process.env.REACT_APP_GIPHY_API_KEY], read inside each call. *)
Variable API_KEY : option string.

Definition search_request (query : string) : request :=
  {| req_url := "https://api.giphy.com/v1/gifs/search";
     api_key := API_KEY; q := Some query; limit := 50 |}.

Definition trending_request : request :=
  {| req_url := "https://api.giphy.com/v1/gifs/trending";
     api_key := API_KEY; q := None; limit := 50 |}.

(** [handleSearch], from the [await] on. *)
Definition handleSearch_after (r : settled (response * unit)) : eff unit :=
  finally
    (try_catch
       (both <- await r ;;
        let response := fst both in
        if truthy (data response)
        then (d <- lift (member (data response) "data") ;; setGifs d)
        else setError "Failed to fetch searched GIFS")
       (fun err => setError "Failed to fetch searched GIFs"))
    (setLoading false).

Definition handleSearch (net : network) (now lag : time) (query : string) : run :=
  if str_falsy (trim query)
  then {| issued := []; writes := [] |}
  else
    {| issued := [search_request query];
       writes :=
         async now [SetLoading true; SetError ""]
           (promise_all2 (net (search_request query)) (minDelay now lag))
           handleSearch_after |}.

(** [handleTrendingGifs], from the [await] on: the request is awaited
    alone. *)
Definition handleTrendingGifs_after (r : settled response) : eff unit :=
  finally
    (try_catch
       (response <- await r ;;
        if truthy (data response)
        then (d <- lift (member (data response) "data") ;; setGifs d)
        else setError "Failed to fetch trending GIFS")
       (fun err => setError "Failed to fetch trending GIFs"))
    (setLoading false).

Definition handleTrendingGifs (net : network) (now : time) : run :=
  {| issued := [trending_request];
     writes :=
       async now [SetLoading true; SetError ""]
         (net trending_request)
         handleTrendingGifs_after |}.

End WithKey.

End Legacy.

(* ================================================================== *)
(** ** Runs of the animator *)
(* ================================================================== *)

(** The phrases the search box cycles through ([GiphySearch.tsx]). *)
Definition GiphySearch_phrases : list string :=
  ["cute dogs"; "cute cats"; "not scary clowns"; "funny memes"; "happy dances"].

Definition resting (text : string) (deleting : bool) (i : nat) : Placeholder.PState :=
  {| Placeholder.placeholder := text; Placeholder.isDeleted := deleting;
     Placeholder.index := i |}.

(** [n] timer firings from the resting state [st]. *)
Fixpoint ticks (phrases : list string) (n : nat) (st : Placeholder.PState)
  : Placeholder.PState :=
  match n with
  | 0 => st
  | S k => Placeholder.tick phrases (ticks phrases k st)
  end.

(** The milliseconds that pass during [n] timer firings from [st]. *)
Fixpoint elapsed (phrases : list string) (n : nat) (st : Placeholder.PState) : nat :=
  match n with
  | 0 => 0
  | S k => Placeholder.shown_for phrases st
           + elapsed phrases k (Placeholder.tick phrases st)
  end.

(** Timer firings spent on one phrase: typing, the hold, deleting. *)
Definition phrase_ticks (p : string) : nat := 2 * String.length p + 1.

Definition period (phrases : list string) : nat :=
  list_sum (map phrase_ticks phrases).

(** The text is the first [k] characters of the phrase at the index, and
    a deleting state still has text. *)
Definition in_phrase (phrases : list string) (st : Placeholder.PState) : Prop :=
  exists p k,
    nth_error phrases (Placeholder.index st) = Some p
    /\ k <= String.length p
    /\ Placeholder.placeholder st = String.substring 0 k p
    /\ (Placeholder.isDeleted st = true -> 0 < k).

(* ================================================================== *)
(** ** What the component shows ([src/components/GiphySearch.tsx]) *)
(* ================================================================== *)

Module View.

(** What the [gifs.map] callback reads of one item: [gif.id] for the key,
    [gif.images.fixed_width.height] for the style (rendered as that value
    followed by [px]), [gif.url] for the link, [gif.images.fixed_width.url]
    for the image, and [gif.bitly_url], which a click on the copy button
    hands to [copyToClipBoard].  The last one is read here with the others:
    it can only throw on an item on which [gif.id] has thrown already. *)
Record card : Type :=
  { card_key : jsval; card_height : jsval; card_href : jsval;
    card_src : jsval; card_copy : jsval }.

Definition and_then {A B} (r : exn + A) (k : A -> exn + B) : exn + B :=
  match r with
  | inl e => inl e
  | inr a => k a
  end.

Definition gif_card (gif : json) : exn + card :=
  and_then (member (Some gif) "id") (fun key =>
  and_then (member (Some gif) "images") (fun images =>
  and_then (member images "fixed_width") (fun fixed_width =>
  and_then (member fixed_width "height") (fun height =>
  and_then (member (Some gif) "bitly_url") (fun bitly_url =>
  and_then (member (Some gif) "url") (fun url =>
  and_then (member fixed_width "url") (fun src =>
  inr {| card_key := key; card_height := height; card_href := url;
         card_src := src; card_copy := bitly_url |}))))))).

(** The callback is run on the items in order; the first throw ends the
    render. *)
Fixpoint map_cards (items : list json) : exn + list card :=
  match items with
  | [] => inr []
  | gif :: rest =>
      and_then (gif_card gif) (fun c =>
      and_then (map_cards rest) (fun cs => inr (c :: cs)))
  end.

(** [gifs.map(...)]: only an array has [map]. *)
Definition results_grid (gifs : jsval) : exn + list card :=
  match gifs with
  | None => inl (Error "Cannot read properties of undefined (reading 'map')")
  | Some JNull => inl (Error "Cannot read properties of null (reading 'map')")
  | Some (JArr items) => map_cards items
  | Some _ => inl (Error "gifs.map is not a function")
  end.

(** What [GiphySearch] puts on screen below the form: the error text when
    there is one, the spinner, the grid. *)
Record view : Type :=
  { banner : option string; spinner : bool; grid : list card }.

Definition GiphySearch (s : State) : exn + view :=
  let banner := if String.eqb (error s) "" then None else Some (error s) in
  let spinner := loading s in
  and_then (results_grid (gifs s)) (fun cards =>
  inr {| banner := banner; spinner := spinner; grid := cards |}).

End View.

(** The card of a well-formed item. *)
Definition card_of (g : GifObject) : View.card :=
  {| View.card_key := Some (JStr (id g));
     View.card_height := Some (JStr (height (fixed_width (images g))));
     View.card_href := Some (JStr (url g));
     View.card_src := Some (JStr (fw_url (fixed_width (images g))));
     View.card_copy := Some (JStr (bitly_url g)) |}.

(* ================================================================== *)
(** * Properties *)
(* ================================================================== *)

(** ** Strings and values *)

Lemma trimStart_all_ws (s : string) : all_ws s = true -> trimStart s = "".
Proof.
  induction s as [|c s IH]; simpl; [reflexivity|].
  intros H. apply andb_prop in H as [Hc Hs]. rewrite Hc. auto.
Qed.

Lemma trimStart_not_all_ws (s : string) :
  all_ws s = false ->
  exists c rest, trimStart s = String c rest /\ is_ws c = false.
Proof.
  induction s as [|c s IH]; simpl; [discriminate|].
  destruct (is_ws c) eqn:Hc; simpl; intros H.
  - auto.
  - exists c, s. auto.
Qed.

Lemma trimEnd_keeps_head (c : ascii) (rest : string) :
  is_ws c = false -> trimEnd (String c rest) <> "".
Proof.
  intros Hc. simpl. destruct (trimEnd rest); [rewrite Hc|]; discriminate.
Qed.

(** [!query.trim()] holds exactly for the strings made of white space. *)
Lemma blank_iff_all_ws (s : string) : str_falsy (trim s) = all_ws s.
Proof.
  unfold str_falsy, trim. destruct (all_ws s) eqn:H.
  - rewrite (trimStart_all_ws s H). reflexivity.
  - destruct (trimStart_not_all_ws s H) as (c & rest & -> & Hc).
    apply String.eqb_neq. now apply trimEnd_keeps_head.
Qed.

(** Reading a property of a truthy value never throws. *)
Lemma member_truthy (v : jsval) (k : string) :
  truthy v = true -> exists d, member v k = inr d.
Proof.
  destruct v as [[| b | n | s | l | fs]|]; simpl; intros H;
    try discriminate; eauto.
Qed.

(** ** State writes *)

Lemma apply_writes_app (s : State) (ws ws' : list write) :
  apply_writes s (ws ++ ws') = apply_writes (apply_writes s ws) ws'.
Proof. apply fold_left_app. Qed.

Lemma stamp_writes (t : time) (ws : list write) : map snd (stamp t ws) = ws.
Proof.
  unfold stamp. rewrite map_map. simpl. apply map_id.
Qed.

(** ** Promises *)

Lemma withMinDelay_never {T} (d now lag : time) :
  Provider.withMinDelay (@Never T) d now lag = Never.
Proof. reflexivity. Qed.

Lemma withMinDelay_fulfilled {T} (tp : time) (v : T) (d now lag : time) :
  Provider.withMinDelay (Settles tp (Fulfilled v)) d now lag
  = Settles (Nat.max now (Nat.max tp (now + d + lag))) (Fulfilled v).
Proof. reflexivity. Qed.

Lemma withMinDelay_rejected {T} (tp : time) (e : exn) (d now lag : time) :
  Provider.withMinDelay (@Settles T tp (Rejected e)) d now lag
  = Settles (Nat.max now tp) (Rejected e).
Proof. reflexivity. Qed.

(** Two settled promises are equal only with the same outcome. *)
Ltac same_outcome :=
  repeat match goal with
    | H : exists _, _ |- _ => destruct H
    | H : Never = Settles _ _ |- _ => discriminate H
    | H : Settles _ _ = Never |- _ => discriminate H
    | H : Settles _ (Fulfilled _) = Settles _ (Rejected _) |- _ => discriminate H
    | H : Settles _ (Rejected _) = Settles _ (Fulfilled _) |- _ => discriminate H
    | H : Settles _ (Fulfilled _) = Settles _ (Fulfilled _) |- _ =>
        injection H as _ <-
    | H : Settles _ (Rejected _) = Settles _ (Rejected _) |- _ =>
        injection H as _ <-
    end;
  eauto.

(** C10.  [withMinDelay(p, d)] is fulfilled with exactly the value [p] is
    fulfilled with, is rejected exactly when [p] is (and with [p]'s reason),
    and stays pending exactly when [p] does: the delay gate only postpones
    the answer. *)
Theorem withMinDelay_transparent {T} (p : Promise T) (d now lag : time) :
  (forall v, resolves_with (Provider.withMinDelay p d now lag) v <-> resolves_with p v)
  /\ (rejects (Provider.withMinDelay p d now lag) <-> rejects p)
  /\ (forall e, rejects_with (Provider.withMinDelay p d now lag) e <-> rejects_with p e)
  /\ (Provider.withMinDelay p d now lag = Never <-> p = Never).
Proof.
  destruct p as [|tp [v|e]];
    [ rewrite withMinDelay_never
    | rewrite withMinDelay_fulfilled
    | rewrite withMinDelay_rejected ];
    unfold rejects, rejects_with, resolves_with;
    repeat split; intros; same_outcome.
Qed.

(** ** The provider's two fetches, case by case *)

Ltac run_after H :=
  unfold Provider.handleSearch_after, Provider.fetchTrendingGifs_after,
         Utils.handleSearch_after, Utils.handleTrendingGifs_after;
  cbn [await bind ret throw fst snd]; rewrite ?H; reflexivity.

Lemma search_after_rejected (e : exn) :
  fst (Provider.handleSearch_after (Rejected e))
  = [SetError ("Failed to search for a GIF: " ++ message e)%string; SetLoading false].
Proof. reflexivity. Qed.

Lemma search_after_no_body (resp : response) :
  truthy (data resp) = false ->
  fst (Provider.handleSearch_after (Fulfilled resp))
  = [SetError "Failed to search for a GIF: No data when search for a GIF";
     SetLoading false].
Proof. intros H. run_after H. Qed.

Lemma search_after_body (resp : response) :
  truthy (data resp) = true ->
  exists d, member (data resp) "data" = inr d
    /\ fst (Provider.handleSearch_after (Fulfilled resp))
       = [SetGifs d; SetLoading false].
Proof.
  intros H. destruct (member_truthy (data resp) "data" H) as [d Hd].
  exists d. split; [exact Hd|].
  unfold Provider.handleSearch_after. cbn [await bind ret]. rewrite H, Hd.
  reflexivity.
Qed.

Lemma trending_after_rejected (e : exn) :
  fst (Provider.fetchTrendingGifs_after (Rejected e))
  = [SetError ("Failed to fetch trending GIFs: " ++ message e)%string; SetLoading false].
Proof. reflexivity. Qed.

Lemma trending_after_no_body (resp : response) :
  truthy (data resp) = false ->
  fst (Provider.fetchTrendingGifs_after (Fulfilled resp))
  = [SetError "Failed to fetch trending GIFs: No data when fetch trending GIFs";
     SetLoading false].
Proof. intros H. run_after H. Qed.

Lemma trending_after_body (resp : response) :
  truthy (data resp) = true ->
  exists d, member (data resp) "data" = inr d
    /\ fst (Provider.fetchTrendingGifs_after (Fulfilled resp))
       = [SetGifs d; SetLoading false].
Proof.
  intros H. destruct (member_truthy (data resp) "data" H) as [d Hd].
  exists d. split; [exact Hd|].
  unfold Provider.fetchTrendingGifs_after. cbn [await bind ret]. rewrite H, Hd.
  reflexivity.
Qed.

Lemma joined_floor (now tp lag : time) :
  now + Provider.delayTime <= joined now tp lag
  /\ tp <= joined now tp lag
  /\ now + Provider.delayTime + lag <= joined now tp lag.
Proof. unfold joined. lia. Qed.

Lemma joined_is_join (now tp lag : time) :
  joined now tp lag = Nat.max tp (now + Provider.delayTime + lag).
Proof. unfold joined. lia. Qed.

Section ProviderRuns.

Variable API_KEY : option string.
Variable net : network.
Variables now lag : time.

Lemma search_writes_pending (query : string) :
  net (Provider.search_request API_KEY query) = Never ->
  writes (Provider.handleSearch API_KEY net now lag query) = [].
Proof.
  intros H. unfold Provider.handleSearch. cbn [writes]. rewrite H. reflexivity.
Qed.

Lemma search_writes_rejected (query : string) (tp : time) (e : exn) :
  net (Provider.search_request API_KEY query) = Settles tp (Rejected e) ->
  writes (Provider.handleSearch API_KEY net now lag query)
  = stamp (Nat.max now (Nat.max now tp))
      [SetError ("Failed to search for a GIF: " ++ message e)%string;
       SetLoading false].
Proof.
  intros H. unfold Provider.handleSearch. cbn [writes]. rewrite H.
  rewrite withMinDelay_rejected. reflexivity.
Qed.

Lemma search_writes_fulfilled (query : string) (tp : time) (resp : response) :
  net (Provider.search_request API_KEY query) = Settles tp (Fulfilled resp) ->
  writes (Provider.handleSearch API_KEY net now lag query)
  = stamp (Nat.max now (joined now tp lag))
      (fst (Provider.handleSearch_after (Fulfilled resp))).
Proof.
  intros H. unfold Provider.handleSearch. cbn [writes]. rewrite H.
  rewrite withMinDelay_fulfilled. reflexivity.
Qed.

Lemma trending_writes_pending :
  net (Provider.trending_request API_KEY) = Never ->
  writes (Provider.fetchTrendingGifs API_KEY net now lag) = [(now, SetLoading true)].
Proof.
  intros H. unfold Provider.fetchTrendingGifs. cbn [writes]. rewrite H. reflexivity.
Qed.

Lemma trending_writes_rejected (tp : time) (e : exn) :
  net (Provider.trending_request API_KEY) = Settles tp (Rejected e) ->
  writes (Provider.fetchTrendingGifs API_KEY net now lag)
  = (now, SetLoading true)
    :: stamp (Nat.max now (Nat.max now tp))
         [SetError ("Failed to fetch trending GIFs: " ++ message e)%string;
          SetLoading false].
Proof.
  intros H. unfold Provider.fetchTrendingGifs. cbn [writes]. rewrite H.
  rewrite withMinDelay_rejected. reflexivity.
Qed.

Lemma trending_writes_fulfilled (tp : time) (resp : response) :
  net (Provider.trending_request API_KEY) = Settles tp (Fulfilled resp) ->
  writes (Provider.fetchTrendingGifs API_KEY net now lag)
  = (now, SetLoading true)
    :: stamp (Nat.max now (joined now tp lag))
         (fst (Provider.fetchTrendingGifs_after (Fulfilled resp))).
Proof.
  intros H. unfold Provider.fetchTrendingGifs. cbn [writes]. rewrite H.
  rewrite withMinDelay_fulfilled. reflexivity.
Qed.

End ProviderRuns.

Lemma max_now_joined (now tp lag : time) :
  Nat.max now (joined now tp lag) = joined now tp lag.
Proof. unfold joined. lia. Qed.

Lemma async_settled_writes {A} (now : time) (before : list write) (t : time)
    (r : settled A) (after : settled A -> eff unit) :
  map snd (async now before (Settles t r) after) = before ++ fst (after r).
Proof.
  unfold async. rewrite map_app, !stamp_writes. reflexivity.
Qed.

Lemma withMinDelay_settles {T} (p : Promise T) (d now lag : time) :
  Store.settles p = true ->
  exists t r, Provider.withMinDelay p d now lag = Settles t r.
Proof.
  destruct p as [|tp [v|e]]; simpl; intros H; try discriminate.
  - rewrite withMinDelay_fulfilled. eauto.
  - rewrite withMinDelay_rejected. eauto.
Qed.

Lemma search_after_ends (r : settled response) :
  exists ws, fst (Provider.handleSearch_after r) = ws ++ [SetLoading false].
Proof. eexists. unfold Provider.handleSearch_after, finally, setLoading. reflexivity. Qed.

Lemma trending_after_ends (r : settled response) :
  exists ws, fst (Provider.fetchTrendingGifs_after r) = ws ++ [SetLoading false].
Proof. eexists. unfold Provider.fetchTrendingGifs_after, finally, setLoading. reflexivity. Qed.

Lemma loading_after_last_write (s : State) (ws : list write) (b : bool) :
  loading (apply_writes s (ws ++ [SetLoading b])) = b.
Proof. rewrite apply_writes_app. reflexivity. Qed.

(** ** The store *)

(** A settled fetch always leaves [loading] false. *)
Lemma settled_action_clears_loading (API_KEY : option string) (s : State)
    (a : Store.action) :
  Store.has_settled API_KEY a = true ->
  loading (commit s (Store.perform API_KEY a))
  = match a with
    | Store.ClearError _ => loading s
    | _ => false
    end.
Proof.
  destruct a as [net now lag query | net now lag | now]; simpl; intros H.
  - destruct (withMinDelay_settles _ Provider.delayTime now lag H) as (t & r & Hw).
    unfold commit, Provider.searchGifs, Provider.handleSearch. cbn [writes].
    rewrite Hw, async_settled_writes.
    destruct (search_after_ends r) as [ws ->].
    cbn [app]. apply loading_after_last_write.
  - destruct (withMinDelay_settles _ Provider.delayTime now lag H) as (t & r & Hw).
    unfold commit, Provider.fetchTrendingGifs. cbn [writes].
    rewrite Hw, async_settled_writes.
    destruct (trending_after_ends r) as [ws ->].
    change ([SetLoading true] ++ ws ++ [SetLoading false])
      with ((SetLoading true :: ws) ++ [SetLoading false]).
    apply loading_after_last_write.
  - reflexivity.
Qed.

Lemma reachable_not_loading (API_KEY : option string) (s : State) :
  Store.reachable API_KEY s -> loading s = false.
Proof.
  induction 1 as [|s a Hs IH Ha].
  - reflexivity.
  - rewrite (settled_action_clears_loading API_KEY s a Ha).
    destruct a; auto.
Qed.

(** C3.  In every state reached from the provider's initial state by
    settled [searchGifs], [fetchTrendingGifs] and [clearError] actions, a
    non-empty [error] comes with [loading = false]. *)
Theorem error_implies_not_loading (API_KEY : option string) (s : State) :
  Store.reachable API_KEY s -> error s <> "" -> loading s = false.
Proof.
  intros Hs _. now apply reachable_not_loading with (API_KEY := API_KEY).
Qed.

Lemma error_implies_not_loading_witness :
  let s := commit initial
             (Store.perform (Some "key") (Store.LoadTrending (failing 7 "Network Error") 0 0)) in
  error s = "Failed to fetch trending GIFs: Network Error" /\ loading s = false.
Proof.
  split; [reflexivity|].
  apply (error_implies_not_loading (Some "key")).
  - apply Store.reach_action; [apply Store.reach_initial | reflexivity].
  - discriminate.
Defined.

(** The premise that the actions have settled is needed: a trending load
    that is still waiting shows the spinner next to an old error. *)
Lemma pending_call_shows_both :
  let s1 := commit initial
              (Provider.fetchTrendingGifs (Some "key") (failing 7 "Network Error") 0 0) in
  let s2 := commit s1 (Provider.fetchTrendingGifs (Some "key") silent 2000 0) in
  loading s2 = true /\ error s2 = "Failed to fetch trending GIFs: Network Error".
Proof. split; reflexivity. Qed.

(** C8.  [clearError()] sets [error] to the empty string and leaves
    [loading] and [gifs] as they were; it sends nothing. *)
Theorem clearError_frame (s : State) (now : time) :
  commit s (Provider.clearError now)
  = {| loading := loading s; error := ""; gifs := gifs s |}
  /\ issued (Provider.clearError now) = [].
Proof. split; reflexivity. Qed.

(** ** Failure paths *)

Lemma utils_trending_rejected (gate : Promise bool) (net : network)
    (now tp : time) (key : string) (e : exn) :
  net (Utils.trending_request key) = Settles tp (Rejected e) ->
  (forall tg e', gate <> Settles tg (Rejected e')) ->
  map snd (writes (Utils.handleTrendingGifs gate net now key))
  = [SetLoading true; SetError ""; SetError "Failed to fetch trending GIFs";
     SetLoading false].
Proof.
  intros H Hg. unfold Utils.handleTrendingGifs. cbn [writes]. rewrite H.
  destruct gate as [|tg [b|e']].
  - reflexivity.
  - reflexivity.
  - exfalso. now apply (Hg tg e').
Qed.

Lemma minDelay_never_rejects (loaded lag tg : time) (e : exn) :
  Utils.minDelay loaded lag <> Settles tg (Rejected e).
Proof. discriminate. Qed.

(** C5.  When the trending request is rejected, the call ends with
    [loading = false], [error] set to the trending message and [gifs]
    exactly as before: the only cells written are [loading] and [error].
    This holds for the provider's [fetchTrendingGifs] (whose message carries
    the reason) and for the helper [handleTrendingGifs]. *)
Theorem trending_failure_keeps_items (API_KEY : option string) (key : string)
    (net : network) (loaded gate_lag now lag tp : time) (e : exn) (s : State) :
  net (Provider.trending_request API_KEY) = Settles tp (Rejected e) ->
  net (Utils.trending_request key) = Settles tp (Rejected e) ->
  let r := Provider.fetchTrendingGifs API_KEY net now lag in
  let r' := Utils.handleTrendingGifs (Utils.minDelay loaded gate_lag) net now key in
  commit s r
  = {| loading := false;
       error := ("Failed to fetch trending GIFs: " ++ message e)%string;
       gifs := gifs s |}
  /\ existsb touches_gifs (map snd (writes r)) = false
  /\ commit s r'
     = {| loading := false; error := "Failed to fetch trending GIFs"; gifs := gifs s |}
  /\ existsb touches_gifs (map snd (writes r')) = false.
Proof.
  intros Hp Hu r r'. subst r r'.
  unfold commit.
  rewrite (trending_writes_rejected API_KEY net now lag tp e Hp).
  rewrite (utils_trending_rejected _ net now tp key e Hu
             (minDelay_never_rejects loaded gate_lag)).
  cbn [map snd stamp]. repeat split; reflexivity.
Qed.

Lemma trending_failure_keeps_items_witness :
  let s := {| loading := false; error := ""; gifs := Some (gifs_json [sample_gif]) |} in
  commit s (Provider.fetchTrendingGifs (Some "key") (failing 40 "Network Error") 0 3)
  = {| loading := false;
       error := "Failed to fetch trending GIFs: Network Error";
       gifs := Some (gifs_json [sample_gif]) |}.
Proof.
  intros s.
  exact (proj1 (trending_failure_keeps_items (Some "key") "key"
                  (failing 40 "Network Error") 0 0 0 3 40 (Error "Network Error") s
                  eq_refl eq_refl)).
Defined.

(** ** The minimum delay *)

Lemma state_at_before (s : State) (now T t : time) (w1 w2 : write) :
  now <= t < T ->
  state_at s {| issued := []; writes := [(now, SetLoading true); (T, w1); (T, w2)] |} t
  = apply_write s (SetLoading true).
Proof.
  intros [H1 H2]. unfold state_at. cbn [writes filter fst].
  apply Nat.leb_le in H1. rewrite H1.
  assert (H3 : (T <=? t) = false) by (apply Nat.leb_gt; lia).
  rewrite H3. reflexivity.
Qed.

(** C2.  On a successful call the items are committed, and [loading] set
    back to false, at the join of the request and of the 1000 ms timer built
    by that call: never sooner than 1000 ms after the call, whenever the
    request was answered.  For [fetchTrendingGifs] the spinner is on from
    the call to that instant. *)
Theorem min_delay_floor (API_KEY : option string) (net : network)
    (now lag tp : time) (resp : response) (query : string) :
  net (Provider.trending_request API_KEY) = Settles tp (Fulfilled resp) ->
  net (Provider.search_request API_KEY query) = Settles tp (Fulfilled resp) ->
  truthy (data resp) = true ->
  exists (d : jsval) (T : time),
    member (data resp) "data" = inr d
    /\ Provider.delayTime = 1000
    /\ settle_time (timer_promise now Provider.delayTime lag)
       = Some (now + Provider.delayTime + lag)
    /\ T = Nat.max tp (now + Provider.delayTime + lag)
    /\ now + Provider.delayTime <= T
    /\ writes (Provider.fetchTrendingGifs API_KEY net now lag)
       = [(now, SetLoading true); (T, SetGifs d); (T, SetLoading false)]
    /\ writes (Provider.searchGifs API_KEY net now lag query)
       = [(T, SetGifs d); (T, SetLoading false)]
    /\ forall (s : State) (t : time),
         now <= t < T ->
         let seen := state_at s (Provider.fetchTrendingGifs API_KEY net now lag) t in
         loading seen = true /\ gifs seen = gifs s.
Proof.
  intros Ht Hs Hb.
  destruct (trending_after_body resp Hb) as (d & Hd & Hwt).
  destruct (search_after_body resp Hb) as (d' & Hd' & Hws).
  assert (d' = d) by congruence. subst d'.
  exists d, (joined now tp lag).
  assert (Wt : writes (Provider.fetchTrendingGifs API_KEY net now lag)
               = [(now, SetLoading true); (joined now tp lag, SetGifs d);
                  (joined now tp lag, SetLoading false)]).
  { rewrite (trending_writes_fulfilled API_KEY net now lag tp resp Ht).
    rewrite Hwt, max_now_joined. reflexivity. }
  repeat split.
  - exact Hd.
  - apply joined_is_join.
  - apply joined_floor.
  - exact Wt.
  - unfold Provider.searchGifs.
    rewrite (search_writes_fulfilled API_KEY net now lag query tp resp Hs).
    rewrite Hws, max_now_joined. reflexivity.
  - unfold state_at in *. rewrite Wt.
    change (loading (state_at s {| issued := [];
              writes := [(now, SetLoading true); (joined now tp lag, SetGifs d);
                         (joined now tp lag, SetLoading false)] |} t) = true).
    rewrite state_at_before by assumption. reflexivity.
  - unfold state_at in *. rewrite Wt.
    change (gifs (state_at s {| issued := [];
              writes := [(now, SetLoading true); (joined now tp lag, SetGifs d);
                         (joined now tp lag, SetLoading false)] |} t) = gifs s).
    rewrite state_at_before by assumption. reflexivity.
Qed.

Lemma min_delay_floor_witness :
  exists T : time,
    1000 <= T
    /\ writes (Provider.fetchTrendingGifs (Some "key")
                 (answering 0 (Some (JObj [("data", gifs_json [sample_gif])]))) 0 0)
       = [(0, SetLoading true); (T, SetGifs (Some (gifs_json [sample_gif])));
          (T, SetLoading false)].
Proof.
  destruct (min_delay_floor (Some "key")
              (answering 0 (Some (JObj [("data", gifs_json [sample_gif])])))
              0 0 0 {| data := Some (JObj [("data", gifs_json [sample_gif])]) |} "cats"
              eq_refl eq_refl eq_refl)
    as (d & T & Hd & _ & _ & _ & Hfloor & Hw & _).
  exists T. split; [exact Hfloor|].
  rewrite Hw. injection Hd as <-. reflexivity.
Defined.

(** The helpers share one timer for the whole module: once it has fired, a
    later call is not held back at all. *)
Lemma shared_gate_gives_no_floor :
  writes (Utils.handleSearch (Utils.minDelay 0 0)
            (answering 4001 (Some (JObj [("data", JArr [])]))) 4000 "key" "cats")
  = [(4000, SetLoading true); (4000, SetError "");
     (4001, SetGifs (Some (JArr []))); (4001, SetLoading false)].
Proof. vm_compute. reflexivity. Qed.

(** ** Search *)

(** The helper [handleSearch] returns at once on a blank query. *)
Lemma utils_handleSearch_blank (gate : Promise bool) (net : network) (now : time)
    (key query : string) (s : State) :
  all_ws query = true ->
  Utils.handleSearch gate net now key query = {| issued := []; writes := [] |}
  /\ commit s (Utils.handleSearch gate net now key query) = s.
Proof.
  intros H. unfold Utils.handleSearch. rewrite blank_iff_all_ws, H.
  split; reflexivity.
Qed.

(** The helper [handleSearch] on any other query: the spinner and the
    cleared error come first. *)
Lemma utils_handleSearch_starts (gate : Promise bool) (net : network) (now : time)
    (key query : string) :
  all_ws query = false ->
  exists rest,
    writes (Utils.handleSearch gate net now key query)
    = (now, SetLoading true) :: (now, SetError "") :: rest
    /\ issued (Utils.handleSearch gate net now key query)
       = [Utils.search_request key query].
Proof.
  intros H. unfold Utils.handleSearch. rewrite blank_iff_all_ws, H.
  eexists. split; reflexivity.
Qed.

(** The helper [handleSearch] when its request is answered: the spinner is
    off again, and either the items are replaced and the error is empty, or
    the error is set and the items are as before. *)
Lemma utils_handleSearch_settles (gate_loaded gate_lag : time) (net : network)
    (now tp : time) (key query : string) (s : State) (r : settled response) :
  all_ws query = false ->
  net (Utils.search_request key query) = Settles tp r ->
  let final := commit s (Utils.handleSearch (Utils.minDelay gate_loaded gate_lag)
                           net now key query) in
  match r with
  | Rejected _ =>
      final = {| loading := false; error := "Failed to fetch searched GIFs";
                 gifs := gifs s |}
  | Fulfilled resp =>
      if truthy (data resp)
      then exists d, member (data resp) "data" = inr d
                     /\ final = {| loading := false; error := ""; gifs := d |}
      else final = {| loading := false; error := "Failed to fetch searched GIFS";
                      gifs := gifs s |}
  end.
Proof.
  intros Hq Hn. unfold Utils.handleSearch. rewrite blank_iff_all_ws, Hq.
  unfold commit. cbn [writes]. rewrite Hn.
  destruct r as [resp|e]; cbn [Utils.minDelay timer_promise promise_all2].
  - rewrite async_settled_writes.
    unfold Utils.handleSearch_after. cbn [await bind ret fst].
    destruct (truthy (data resp)) eqn:Hb.
    + destruct (member_truthy (data resp) "data" Hb) as [d Hd].
      exists d. split; [exact Hd|]. rewrite Hd. reflexivity.
    + reflexivity.
  - reflexivity.
Qed.

Lemma search_writes_shape (API_KEY : option string) (net : network)
    (now lag : time) (query : string) :
  let ws := map snd (writes (Provider.searchGifs API_KEY net now lag query)) in
  ws = []
  \/ (exists d, ws = [SetGifs d; SetLoading false])
  \/ (exists m, ws = [SetError ("Failed to search for a GIF: " ++ m)%string;
                      SetLoading false]).
Proof.
  unfold Provider.searchGifs.
  destruct (net (Provider.search_request API_KEY query)) as [|tp [resp|e]] eqn:H.
  - left. cbn zeta. now rewrite (search_writes_pending API_KEY net now lag query H).
  - cbn zeta. rewrite (search_writes_fulfilled API_KEY net now lag query tp resp H).
    rewrite stamp_writes.
    destruct (truthy (data resp)) eqn:Hb.
    + destruct (search_after_body resp Hb) as (d & _ & ->). right. left. eauto.
    + rewrite (search_after_no_body resp Hb). right. right.
      exists "No data when search for a GIF". reflexivity.
  - cbn zeta. rewrite (search_writes_rejected API_KEY net now lag query tp e H).
    rewrite stamp_writes. right. right. exists (message e). reflexivity.
Qed.

(** C1.  The provider's [searchGifs] never sets [loading] to true and never
    clears [error]: on any query and any network its writes contain neither
    [setLoading(true)] nor [setError('')].  On the query ["cats"], answered
    after 50 ms with one item while an old error is shown, the spinner stays
    off during the whole call and the old error is still there at the end. *)
Theorem searchGifs_skips_loading_and_keeps_error :
  (forall API_KEY net now lag query,
     let ws := map snd (writes (Provider.searchGifs API_KEY net now lag query)) in
     ~ In (SetLoading true) ws /\ ~ In (SetError "") ws)
  /\ (let s0 := {| loading := false;
                   error := "Failed to search for a GIF: Network Error";
                   gifs := Some (JArr []) |} in
      let r := Provider.searchGifs (Some "key")
                 (answering 50 (Some (JObj [("data", gifs_json [sample_gif])])))
                 0 0 "cats" in
      all_ws "cats" = false
      /\ writes r = [(1000, SetGifs (Some (gifs_json [sample_gif])));
                     (1000, SetLoading false)]
      /\ loading (state_at s0 r 0) = false
      /\ loading (state_at s0 r 999) = false
      /\ commit s0 r
         = {| loading := false;
              error := "Failed to search for a GIF: Network Error";
              gifs := Some (gifs_json [sample_gif]) |}).
Proof.
  split.
  - intros API_KEY net now lag query ws. subst ws.
    destruct (search_writes_shape API_KEY net now lag query)
      as [-> | [[d ->] | [m ->]]]; simpl; split; intros H;
      repeat (destruct H as [H|H]; try discriminate H); auto.
  - vm_compute. repeat split; reflexivity.
Qed.

(** C4.  The provider's [searchGifs] has no blank-query guard: every query is
    sent as it is.  A query of three spaces issues the search request and,
    when it is answered, replaces the items (or sets an error when it
    fails). *)
Theorem searchGifs_fetches_blank_query :
  (forall API_KEY net now lag query,
     issued (Provider.searchGifs API_KEY net now lag query)
     = [Provider.search_request API_KEY query])
  /\ (let s0 := {| loading := false; error := "";
                   gifs := Some (gifs_json [sample_gif]) |} in
      let r := Provider.searchGifs (Some "key")
                 (answering 20 (Some (JObj [("data", JArr [])]))) 0 0 "   " in
      let r' := Provider.searchGifs (Some "key")
                  (failing 20 "Request failed with status code 400") 0 0 "   " in
      str_falsy (trim "   ") = true
      /\ issued r = [{| req_url := "https://api.giphy.com/v1/gifs/search";
                        api_key := Some "key"; q := Some "   "; limit := 50 |}]
      /\ commit s0 r = {| loading := false; error := ""; gifs := Some (JArr []) |}
      /\ commit s0 r'
         = {| loading := false;
              error := "Failed to search for a GIF: Request failed with status code 400";
              gifs := Some (gifs_json [sample_gif]) |}).
Proof.
  split.
  - reflexivity.
  - vm_compute. repeat split; reflexivity.
Qed.

(** ** Responses without the expected payload *)

(** C6, counterexample.  A body that is present but has no [data] key is
    not taken for a failure: both fetches store [undefined] in [gifs] and
    set no error. *)
Lemma body_without_data_is_committed :
  let body := Some (JObj [("meta", JObj [("status", JNum 200); ("msg", JStr "OK")])]) in
  let s0 := {| loading := false; error := ""; gifs := Some (gifs_json [sample_gif]) |} in
  member body "data" = inr None
  /\ commit s0 (Provider.searchGifs (Some "key") (answering 30 body) 0 0 "cats")
     = {| loading := false; error := ""; gifs := None |}
  /\ commit s0 (Provider.fetchTrendingGifs (Some "key") (answering 30 body) 0 0)
     = {| loading := false; error := ""; gifs := None |}.
Proof. vm_compute. repeat split; reflexivity. Qed.

(** C6 (amended).  A response with no body at all ([response.data] falsy)
    is a failed fetch, for search and for trending: [error] is set to the
    message of that kind and [gifs] is left as it was. *)
Theorem empty_body_is_failure (API_KEY : option string) (net : network)
    (now lag tp : time) (resp : response) (query : string) (s : State) :
  net (Provider.search_request API_KEY query) = Settles tp (Fulfilled resp) ->
  net (Provider.trending_request API_KEY) = Settles tp (Fulfilled resp) ->
  truthy (data resp) = false ->
  commit s (Provider.searchGifs API_KEY net now lag query)
  = {| loading := false;
       error := "Failed to search for a GIF: No data when search for a GIF";
       gifs := gifs s |}
  /\ commit s (Provider.fetchTrendingGifs API_KEY net now lag)
     = {| loading := false;
          error := "Failed to fetch trending GIFs: No data when fetch trending GIFs";
          gifs := gifs s |}.
Proof.
  intros Hs Ht Hb. unfold commit, Provider.searchGifs.
  rewrite (search_writes_fulfilled API_KEY net now lag query tp resp Hs).
  rewrite (trending_writes_fulfilled API_KEY net now lag tp resp Ht).
  cbn [map snd]. rewrite !stamp_writes.
  rewrite (search_after_no_body resp Hb), (trending_after_no_body resp Hb).
  split; reflexivity.
Qed.

Lemma empty_body_is_failure_witness :
  let s := {| loading := false; error := ""; gifs := Some (gifs_json [sample_gif]) |} in
  commit s (Provider.searchGifs (Some "key") (answering 30 (Some (JStr ""))) 0 0 "cats")
  = {| loading := false;
       error := "Failed to search for a GIF: No data when search for a GIF";
       gifs := Some (gifs_json [sample_gif]) |}.
Proof.
  intros s.
  exact (proj1 (empty_body_is_failure (Some "key") (answering 30 (Some (JStr "")))
                  0 0 30 {| data := Some (JStr "") |} "cats" s
                  eq_refl eq_refl eq_refl)).
Defined.

(** ** The consumer lookup *)

Lemma useContext_without_provider (above : list Context.ancestor) :
  existsb Context.is_provider above = false -> Context.useContext above = None.
Proof.
  induction above as [|[v|name] up IH]; simpl; intros H.
  - reflexivity.
  - discriminate.
  - auto.
Qed.

Lemma useContext_under_provider (names : list string) (v : option Context.GiphyContextObject)
    (outer : list Context.ancestor) :
  Context.useContext (map Context.Component names ++ Context.ContextProvider v :: outer) = v.
Proof.
  induction names as [|n names IH]; simpl; auto.
Qed.

(** C9.  [useGiphySearchContext] throws an [Error] with a non-empty message
    exactly when [useContext] yields [undefined], which is the case for any
    consumer with no provider above it; otherwise it returns the very object
    [useContext] yields, which under a [GiphySearchProvider] is the provider's
    [value] object, the same for every consumer below it. *)
Theorem useGiphySearchContext_fails_fast (above : list Context.ancestor) :
  (Context.useContext above = None ->
     Context.useGiphySearchContext above
     = inl (Error "Context must be used with a GiphySearchContext"))
  /\ message (Error "Context must be used with a GiphySearchContext") <> ""
  /\ (forall context, Context.useContext above = Some context ->
        Context.useGiphySearchContext above = inr context)
  /\ (existsb Context.is_provider above = false ->
        exists e, Context.useGiphySearchContext above = inl e)
  /\ (forall API_KEY s names names',
        Context.useGiphySearchContext
          (map Context.Component names ++ Context.GiphySearchProvider API_KEY s :: above)
        = inr (Context.value API_KEY s)
        /\ Context.useGiphySearchContext
             (map Context.Component names' ++ Context.GiphySearchProvider API_KEY s :: above)
           = Context.useGiphySearchContext
               (map Context.Component names ++ Context.GiphySearchProvider API_KEY s :: above)).
Proof.
  unfold Context.useGiphySearchContext, Context.GiphySearchProvider.
  repeat split.
  - intros ->. reflexivity.
  - discriminate.
  - intros context ->. reflexivity.
  - intros H. rewrite (useContext_without_provider above H). eauto.
  - now rewrite useContext_under_provider.
  - now rewrite !useContext_under_provider.
Qed.

Lemma useGiphySearchContext_fails_fast_witness :
  Context.useGiphySearchContext [Context.Component "App"; Context.Component "GiphySearch"]
  = inl (Error "Context must be used with a GiphySearchContext").
Proof.
  apply (proj1 (useGiphySearchContext_fails_fast
                  [Context.Component "App"; Context.Component "GiphySearch"])).
  reflexivity.
Defined.

(** ** The placeholder animator *)

(** After an immediate update the effect arms a timer: the hook is at rest
    after at most one extra run. *)
Lemma rest_waits (phrases : list string) (st : Placeholder.PState) :
  exists ms next,
    Placeholder.effect phrases (Placeholder.rest phrases st)
    = Placeholder.Timeout ms next.
Proof.
  unfold Placeholder.rest.
  destruct (Placeholder.effect phrases st) as [next|ms next] eqn:E.
  - unfold Placeholder.effect in E.
    destruct (negb (Placeholder.isDeleted st)
              && Placeholder.same_text (Placeholder.placeholder st)
                   (nth_error phrases (Placeholder.index st))); [discriminate|].
    destruct (Placeholder.isDeleted st
              && String.eqb (Placeholder.placeholder st) ""); [|discriminate].
    injection E as <-.
    unfold Placeholder.effect. cbn [Placeholder.isDeleted negb andb].
    match goal with
    | |- context [if ?c then _ else _] => destruct c
    end; eauto.
  - eauto.
Qed.

(** When the text has been deleted the index moves on cyclically and typing
    starts again, with no timer in between. *)
Lemma effect_advances_index (phrases : list string) (i : nat) :
  Placeholder.effect phrases
    {| Placeholder.placeholder := ""; Placeholder.isDeleted := true;
       Placeholder.index := i |}
  = Placeholder.Immediately
      {| Placeholder.placeholder := ""; Placeholder.isDeleted := false;
         Placeholder.index := (i + 1) mod List.length phrases |}.
Proof. reflexivity. Qed.

Lemma frame_tick (phrases : list string) (n k : nat) :
  Placeholder.frame phrases (n + k)
  = Nat.iter n (Placeholder.tick phrases) (Placeholder.frame phrases k).
Proof.
  induction n as [|n IH]; simpl; [reflexivity|]. now rewrite IH.
Qed.

Lemma frame_period (phrases : list string) (p : nat) :
  Placeholder.frame phrases p = Placeholder.frame phrases 0 ->
  forall n, Placeholder.frame phrases (n + p) = Placeholder.frame phrases n.
Proof.
  intros Hp n. rewrite frame_tick, Hp, <- frame_tick.
  now rewrite Nat.add_0_r.
Qed.

Lemma frame_mod (phrases : list string) (p : nat) :
  p <> 0 ->
  Placeholder.frame phrases p = Placeholder.frame phrases 0 ->
  forall n, Placeholder.frame phrases n = Placeholder.frame phrases (n mod p).
Proof.
  intros Hnz Hp n.
  rewrite (Nat.div_mod_eq n p) at 1.
  generalize (n / p) as k. generalize (n mod p) as r.
  intros r k. induction k as [|k IH].
  - now rewrite Nat.mul_0_r.
  - replace (p * S k + r) with ((p * k + r) + p) by lia.
    now rewrite (frame_period phrases p Hp).
Qed.

(** C7.  On the phrases ["ab"; "cd"] a freshly mounted animator starts with
    empty text at index 0, and the text shown after each timer step is
    "", "a", "ab", "ab", "a", "", "c", "cd", "cd", "c", and then the same
    again for ever; the full phrase is held 1500 ms, typing steps take 130 ms
    and deleting steps 80 ms; whenever the text has been emptied the index
    becomes [(index + 1) mod length phrases]. *)
Theorem placeholder_cycle :
  Placeholder.mount
  = {| Placeholder.placeholder := ""; Placeholder.isDeleted := false;
       Placeholder.index := 0 |}
  /\ map (Placeholder.visibleText ["ab"; "cd"]) (seq 0 12)
     = ["";  "a"; "ab"; "ab"; "a"; ""; "c"; "cd"; "cd"; "c"; ""; "a"]
  /\ map (fun n => Placeholder.index (Placeholder.frame ["ab"; "cd"] n)) (seq 0 12)
     = [0; 0; 0; 0; 0; 1; 1; 1; 1; 1; 0; 0]
  /\ map (fun n => Placeholder.shown_for ["ab"; "cd"] (Placeholder.frame ["ab"; "cd"] n))
       (seq 0 10)
     = [130; 130; 1500; 80; 80; 130; 130; 1500; 80; 80]
  /\ (forall n, Placeholder.frame ["ab"; "cd"] (n + 10) = Placeholder.frame ["ab"; "cd"] n)
  /\ (forall n, Placeholder.visibleText ["ab"; "cd"] n
                = nth (n mod 10) [""; "a"; "ab"; "ab"; "a"; ""; "c"; "cd"; "cd"; "c"] "")
  /\ (forall phrases i,
        Placeholder.effect phrases
          {| Placeholder.placeholder := ""; Placeholder.isDeleted := true;
             Placeholder.index := i |}
        = Placeholder.Immediately
            {| Placeholder.placeholder := ""; Placeholder.isDeleted := false;
               Placeholder.index := (i + 1) mod List.length phrases |}).
Proof.
  assert (P : Placeholder.frame ["ab"; "cd"] 10 = Placeholder.frame ["ab"; "cd"] 0)
    by (vm_compute; reflexivity).
  split; [reflexivity|].
  split; [vm_compute; reflexivity|].
  split; [vm_compute; reflexivity|].
  split; [vm_compute; reflexivity|].
  split; [apply frame_period; exact P|].
  split; [|apply effect_advances_index].
  intros n. unfold Placeholder.visibleText, Placeholder.useAnimatedPlaceHolder.
  rewrite (frame_mod ["ab"; "cd"] 10 ltac:(discriminate) P n).
  assert (H : n mod 10 < 10) by (apply Nat.mod_upper_bound; discriminate).
  revert H. generalize (n mod 10) as r. intros r H.
  do 10 (destruct r as [|r]; [vm_compute; reflexivity|]).
  lia.
Qed.

(** ** Overlapping calls *)

Lemma closing_app (ws : list write) : Overlap.closing (ws ++ [SetLoading false]).
Proof. unfold Overlap.closing. apply last_last. Qed.

Lemma closing_tail (w : write) (ws : list write) :
  Overlap.closing (w :: ws) -> ws <> [] -> Overlap.closing ws.
Proof.
  unfold Overlap.closing. destruct ws as [|w' ws]; [congruence|].
  intros H _. exact H.
Qed.

Lemma harmless_tail (w : write) (ws : list write) :
  Overlap.harmless (w :: ws) -> Overlap.harmless ws.
Proof.
  intros [H|H].
  - destruct ws as [|w' ws].
    + right. reflexivity.
    + left. apply (closing_tail w); [exact H | discriminate].
  - right. simpl in H. apply orb_false_elim in H. tauto.
Qed.

Lemma settled_run_harmless (API_KEY : option string) (a : Store.action) :
  Store.has_settled API_KEY a = true ->
  Overlap.harmless (map snd (writes (Store.perform API_KEY a))).
Proof.
  destruct a as [net now lag query | net now lag | now];
    cbn [Store.has_settled Store.perform]; intros H.
  - destruct (withMinDelay_settles _ Provider.delayTime now lag H) as (t & r & Hw).
    unfold Provider.searchGifs, Provider.handleSearch. cbn [writes].
    rewrite Hw, async_settled_writes.
    destruct (search_after_ends r) as [ws ->]. left. apply closing_app.
  - destruct (withMinDelay_settles _ Provider.delayTime now lag H) as (t & r & Hw).
    unfold Provider.fetchTrendingGifs. cbn [writes].
    rewrite Hw, async_settled_writes.
    destruct (trending_after_ends r) as [ws ->]. left.
    change ([SetLoading true] ++ ws ++ [SetLoading false])
      with ((SetLoading true :: ws) ++ [SetLoading false]).
    apply closing_app.
  - right. reflexivity.
Qed.

Lemma step_keeps_balance (API_KEY : option string) (c c' : Overlap.config) :
  Overlap.step API_KEY c c' -> Overlap.balanced c -> Overlap.balanced c'.
Proof.
  intros Hstep [Hall Hload].
  destruct Hstep as [s calls a Ha | s before after w rest]; cbn [Overlap.store Overlap.owed] in *.
  - split; cbn [Overlap.store Overlap.owed].
    + constructor; [now apply settled_run_harmless | exact Hall].
    + intros L. apply Exists_cons_tl. auto.
  - apply Forall_app in Hall as [Hb Hrest].
    inversion Hrest as [|x l Hw Ha]; subst.
    split; cbn [Overlap.store Overlap.owed].
    + apply Forall_app. split; [exact Hb|].
      constructor; [now apply harmless_tail with (w := w) | exact Ha].
    + intros L.
      assert (Hcase : rest <> [] /\ Overlap.closing (w :: rest)
                      \/ Exists Overlap.closing before
                      \/ Exists Overlap.closing after).
      { destruct w as [[|] | e | g]; cbn [apply_write loading] in L.
        - left. destruct Hw as [Hc|Hn]; [|discriminate Hn].
          split; [|exact Hc]. intros ->. discriminate Hc.
        - discriminate L.
        - specialize (Hload L). apply Exists_app in Hload as [Hx|Hx]; [tauto|].
          inversion Hx as [x l Hc | x l Hx']; subst; [|tauto].
          left. split; [|exact Hc]. intros ->. discriminate Hc.
        - specialize (Hload L). apply Exists_app in Hload as [Hx|Hx]; [tauto|].
          inversion Hx as [x l Hc | x l Hx']; subst; [|tauto].
          left. split; [|exact Hc]. intros ->. discriminate Hc. }
      apply Exists_app.
      destruct Hcase as [[Hne Hc] | [Hx | Hx]].
      * right. apply Exists_cons_hd. now apply closing_tail with (w := w).
      * left. exact Hx.
      * right. apply Exists_cons_tl. exact Hx.
Qed.

Lemma steps_keep_balance (API_KEY : option string) (c c' : Overlap.config) :
  Overlap.steps API_KEY c c' -> Overlap.balanced c -> Overlap.balanced c'.
Proof.
  induction 1 as [c | c c' c'' _ IH Hstep]; intros Hc.
  - exact Hc.
  - apply (step_keeps_balance API_KEY c' c'' Hstep). auto.
Qed.

Lemma start_balanced : Overlap.balanced Overlap.start.
Proof.
  split; cbn.
  - constructor.
  - discriminate.
Qed.

(** However the calls of the consumers overlap, once every call made has
    performed all its writes the spinner is off. *)
Lemma quiescent_not_loading (API_KEY : option string) (c : Overlap.config) :
  Overlap.steps API_KEY Overlap.start c ->
  Overlap.quiescent c ->
  loading (Overlap.store c) = false.
Proof.
  intros Hsteps Hq.
  destruct (steps_keep_balance API_KEY _ _ Hsteps start_balanced) as [_ Hload].
  destruct (loading (Overlap.store c)) eqn:L; [|reflexivity].
  specialize (Hload eq_refl). exfalso.
  unfold Overlap.quiescent in Hq.
  apply Exists_exists in Hload as (ws & Hin & Hc).
  rewrite Forall_forall in Hq. rewrite (Hq ws Hin) in Hc. discriminate Hc.
Qed.

(* ================================================================== *)
(** * Further properties *)
(* ================================================================== *)

(** ** The provider's fetches, continued *)

(** X1.  [fetchTrendingGifs] sends one trending request (limit 50, no
    [q]) and its first write is [setLoading(true)] at the instant of the
    call, whatever the network does; nothing else is written before. *)
Theorem trending_starts_loading (API_KEY : option string) (net : network)
    (now lag : time) :
  let r := Provider.fetchTrendingGifs API_KEY net now lag in
  issued r = [{| req_url := "https://api.giphy.com/v1/gifs/trending";
                 api_key := API_KEY; q := None; limit := 50 |}]
  /\ exists later,
       writes r = (now, SetLoading true) :: later
       /\ Forall (fun tw => now <= fst tw) later.
Proof.
  split; [reflexivity|].
  unfold Provider.fetchTrendingGifs. cbn [writes].
  destruct (Provider.withMinDelay (net (Provider.trending_request API_KEY))
              Provider.delayTime now lag) as [|t r].
  - exists []. split; [reflexivity | constructor].
  - eexists. split; [reflexivity|].
    unfold stamp. apply Forall_map, Forall_forall. intros w _. cbn. lia.
Qed.

(** X2.  There is no time-out: while a request is not answered,
    [fetchTrendingGifs] keeps [loading] true and [searchGifs] writes nothing,
    at every later instant. *)
Theorem unanswered_request_hangs (API_KEY : option string) (net : network)
    (now lag : time) (query : string) (s : State) (t : time) :
  net (Provider.trending_request API_KEY) = Never ->
  net (Provider.search_request API_KEY query) = Never ->
  now <= t ->
  state_at s (Provider.fetchTrendingGifs API_KEY net now lag) t
  = {| loading := true; error := error s; gifs := gifs s |}
  /\ state_at s (Provider.searchGifs API_KEY net now lag query) t = s
  /\ writes (Provider.searchGifs API_KEY net now lag query) = [].
Proof.
  intros Ht Hs Hnow. unfold state_at, Provider.searchGifs.
  rewrite (trending_writes_pending API_KEY net now lag Ht).
  rewrite (search_writes_pending API_KEY net now lag query Hs).
  cbn [filter fst]. apply Nat.leb_le in Hnow. rewrite Hnow.
  repeat split.
Qed.

Lemma unanswered_request_hangs_witness :
  loading (state_at initial (Provider.fetchTrendingGifs (Some "key") silent 0 0) 3600)
  = true.
Proof.
  rewrite (proj1 (unanswered_request_hangs (Some "key") silent 0 0 "cats" initial 3600
                    eq_refl eq_refl (Nat.le_0_l _))).
  reflexivity.
Defined.

(** X3.  A rejected request is not held back by the delay: the error is
    set and [loading] cleared at the instant of the rejection, and the items
    are kept. *)
Theorem failure_is_not_delayed (API_KEY : option string) (net : network)
    (now lag tp : time) (e : exn) (query : string) (s : State) :
  net (Provider.search_request API_KEY query) = Settles tp (Rejected e) ->
  net (Provider.trending_request API_KEY) = Settles tp (Rejected e) ->
  now <= tp ->
  writes (Provider.searchGifs API_KEY net now lag query)
  = [(tp, SetError ("Failed to search for a GIF: " ++ message e)%string);
     (tp, SetLoading false)]
  /\ writes (Provider.fetchTrendingGifs API_KEY net now lag)
     = [(now, SetLoading true);
        (tp, SetError ("Failed to fetch trending GIFs: " ++ message e)%string);
        (tp, SetLoading false)]
  /\ commit s (Provider.searchGifs API_KEY net now lag query)
     = {| loading := false;
          error := ("Failed to search for a GIF: " ++ message e)%string;
          gifs := gifs s |}.
Proof.
  intros Hs Ht Hnow. unfold commit, Provider.searchGifs.
  rewrite (search_writes_rejected API_KEY net now lag query tp e Hs).
  rewrite (trending_writes_rejected API_KEY net now lag tp e Ht).
  replace (Nat.max now (Nat.max now tp)) with tp by lia.
  repeat split.
Qed.

Lemma failure_is_not_delayed_witness :
  writes (Provider.searchGifs (Some "key") (failing 12 "timeout of 10ms exceeded") 2 0 "cats")
  = [(12, SetError "Failed to search for a GIF: timeout of 10ms exceeded");
     (12, SetLoading false)].
Proof.
  exact (proj1 (failure_is_not_delayed (Some "key") (failing 12 "timeout of 10ms exceeded")
                  2 0 12 (Error "timeout of 10ms exceeded") "cats" initial
                  eq_refl eq_refl ltac:(lia))).
Defined.

Lemma lookup_first_field (k : string) (v : json) (others : list (string * json)) :
  lookup_field k others = None -> lookup_field k ((k, v) :: others) = Some v.
Proof. intros H. cbn [lookup_field]. now rewrite H, String.eqb_refl. Qed.

(** X4.  When the body is an object whose [data] field is a list of
    items, possibly with other fields beside it, both fetches store exactly
    that list, in the order received, and leave [error] as it was. *)
Theorem success_commits_data_field (API_KEY : option string) (net : network)
    (now lag tp : time) (query : string) (s : State)
    (l : list GifObject) (others : list (string * json)) :
  let body := Some (JObj (("data", gifs_json l) :: others)) in
  lookup_field "data" others = None ->
  net (Provider.search_request API_KEY query) = Settles tp (Fulfilled {| data := body |}) ->
  net (Provider.trending_request API_KEY) = Settles tp (Fulfilled {| data := body |}) ->
  commit s (Provider.searchGifs API_KEY net now lag query)
  = {| loading := false; error := error s; gifs := Some (JArr (map gif_json l)) |}
  /\ commit s (Provider.fetchTrendingGifs API_KEY net now lag)
     = {| loading := false; error := error s; gifs := Some (JArr (map gif_json l)) |}.
Proof.
  intros body Ho Hs Ht. unfold commit, Provider.searchGifs.
  rewrite (search_writes_fulfilled API_KEY net now lag query tp _ Hs).
  rewrite (trending_writes_fulfilled API_KEY net now lag tp _ Ht).
  cbn [map snd]. rewrite !stamp_writes.
  unfold Provider.handleSearch_after, Provider.fetchTrendingGifs_after.
  cbn [await bind ret data body truthy member lift].
  rewrite (lookup_first_field "data" (gifs_json l) others Ho).
  split; reflexivity.
Qed.

Lemma success_commits_data_field_witness :
  gifs (commit initial
          (Provider.searchGifs (Some "key")
             (answering 80
                (Some (JObj [("data", gifs_json [sample_gif; sample_gif]);
                             ("pagination", JObj [("count", JNum 2)]);
                             ("meta", JObj [("status", JNum 200)])])))
             0 0 "cats"))
  = Some (JArr [gif_json sample_gif; gif_json sample_gif]).
Proof.
  rewrite (proj1 (success_commits_data_field (Some "key") _ 0 0 80 "cats" initial
                    [sample_gif; sample_gif]
                    [("pagination", JObj [("count", JNum 2)]);
                     ("meta", JObj [("status", JNum 200)])]
                    eq_refl eq_refl eq_refl)).
  reflexivity.
Defined.

(** X6.  A fetch that fails followed by [clearError] leaves [gifs] as
    before the fetch, with [loading] false and no error. *)
Theorem failed_fetch_then_clearError (API_KEY : option string) (net : network)
    (now lag tp later : time) (e : exn) (query : string) (s : State) :
  net (Provider.search_request API_KEY query) = Settles tp (Rejected e) ->
  net (Provider.trending_request API_KEY) = Settles tp (Rejected e) ->
  commit (commit s (Provider.searchGifs API_KEY net now lag query))
         (Provider.clearError later)
  = {| loading := false; error := ""; gifs := gifs s |}
  /\ commit (commit s (Provider.fetchTrendingGifs API_KEY net now lag))
            (Provider.clearError later)
     = {| loading := false; error := ""; gifs := gifs s |}.
Proof.
  intros Hs Ht. unfold commit, Provider.searchGifs.
  rewrite (search_writes_rejected API_KEY net now lag query tp e Hs).
  rewrite (trending_writes_rejected API_KEY net now lag tp e Ht).
  split; reflexivity.
Qed.

Lemma failed_fetch_then_clearError_witness :
  commit (commit initial
            (Provider.searchGifs (Some "key") (failing 9 "Network Error") 0 0 "cats"))
         (Provider.clearError 20)
  = initial.
Proof.
  exact (proj1 (failed_fetch_then_clearError (Some "key") (failing 9 "Network Error")
                  0 0 9 20 (Error "Network Error") "cats" initial eq_refl eq_refl)).
Defined.

(** ** Two fetches at once *)



(** ** The helpers, continued *)

Lemma utils_handleSearch_blank_witness :
  commit initial (Utils.handleSearch (Utils.minDelay 0 0) (failing 3 "Network Error")
                    10 "key" "  ") = initial.
Proof.
  exact (proj2 (utils_handleSearch_blank (Utils.minDelay 0 0) (failing 3 "Network Error")
                  10 "key" "  " initial eq_refl)).
Defined.

Lemma utils_handleSearch_starts_witness :
  issued (Utils.handleSearch (Utils.minDelay 0 0) silent 10 "key" " cats ")
  = [{| req_url := "https://api.giphy.com/v1/gifs/search";
        api_key := Some "key"; q := Some " cats "; limit := 50 |}].
Proof.
  destruct (utils_handleSearch_starts (Utils.minDelay 0 0) silent 10 "key" " cats " eq_refl)
    as (later & _ & ->).
  reflexivity.
Defined.

Lemma utils_handleSearch_settles_witness :
  commit {| loading := false; error := "Failed to fetch searched GIFs";
            gifs := Some (JArr []) |}
         (Utils.handleSearch (Utils.minDelay 0 0) (failing 30 "Network Error")
            10 "key" "cats")
  = {| loading := false; error := "Failed to fetch searched GIFs"; gifs := Some (JArr []) |}.
Proof.
  exact (utils_handleSearch_settles 0 0 (failing 30 "Network Error") 10 30 "key" "cats"
           _ (Rejected (Error "Network Error")) eq_refl eq_refl).
Defined.

(** X10.  The helpers' delay counts from the loading of the module, not
    from the call: the writes after the [await] come at
    [max now (max answer (loaded + 1000 + lag))], which is the instant of the
    answer once the module-level timer has fired. *)
Theorem shared_gate_counts_from_load (loaded gate_lag : time) (net : network)
    (now tp : time) (key query : string) (resp : response) :
  all_ws query = false ->
  net (Utils.search_request key query) = Settles tp (Fulfilled resp) ->
  truthy (data resp) = true ->
  exists d T,
    member (data resp) "data" = inr d
    /\ T = Nat.max now (Nat.max tp (loaded + Utils.delayTime + gate_lag))
    /\ writes (Utils.handleSearch (Utils.minDelay loaded gate_lag) net now key query)
       = [(now, SetLoading true); (now, SetError "");
          (T, SetGifs d); (T, SetLoading false)]
    /\ (loaded + Utils.delayTime + gate_lag <= now -> now <= tp -> T = tp).
Proof.
  intros Hq Hn Hb.
  destruct (member_truthy (data resp) "data" Hb) as [d Hd].
  exists d, (Nat.max now (Nat.max tp (loaded + Utils.delayTime + gate_lag))).
  repeat split; [exact Hd | | intros; lia].
  unfold Utils.handleSearch. rewrite blank_iff_all_ws, Hq.
  cbn [writes]. rewrite Hn.
  cbn [Utils.minDelay timer_promise promise_all2]. unfold async.
  unfold Utils.handleSearch_after. cbn [await bind ret fst]. rewrite Hb, Hd.
  reflexivity.
Qed.

Lemma shared_gate_counts_from_load_witness :
  map fst (writes (Utils.handleSearch (Utils.minDelay 0 0)
                     (answering 4001 (Some (JObj [("data", JArr [])]))) 4000 "key" "cats"))
  = [4000; 4000; 4001; 4001].
Proof.
  destruct (shared_gate_counts_from_load 0 0
              (answering 4001 (Some (JObj [("data", JArr [])]))) 4000 4001
              "key" "cats" _ eq_refl eq_refl eq_refl) as (d & T & _ & -> & -> & _).
  reflexivity.
Defined.

(** X11.  The helper [handleTrendingGifs], when its request is answered:
    [loading] is false again, and either the items are replaced and the
    error is empty, or the error is the trending message and the items are
    as before. *)
Theorem utils_handleTrendingGifs_settles (loaded gate_lag : time) (net : network)
    (now tp : time) (key : string) (s : State) (r : settled response) :
  net (Utils.trending_request key) = Settles tp r ->
  let final := commit s (Utils.handleTrendingGifs (Utils.minDelay loaded gate_lag)
                           net now key) in
  match r with
  | Rejected _ =>
      final = {| loading := false; error := "Failed to fetch trending GIFs";
                 gifs := gifs s |}
  | Fulfilled resp =>
      if truthy (data resp)
      then exists d, member (data resp) "data" = inr d
                     /\ final = {| loading := false; error := ""; gifs := d |}
      else final = {| loading := false; error := "Failed to fetch trending GIFS";
                      gifs := gifs s |}
  end.
Proof.
  intros Hn. unfold Utils.handleTrendingGifs, commit. cbn [writes]. rewrite Hn.
  destruct r as [resp|e]; cbn [Utils.minDelay timer_promise promise_all2].
  - rewrite async_settled_writes.
    unfold Utils.handleTrendingGifs_after. cbn [await bind ret fst].
    destruct (truthy (data resp)) eqn:Hb.
    + destruct (member_truthy (data resp) "data" Hb) as [d Hd].
      exists d. split; [exact Hd|]. rewrite Hd. reflexivity.
    + reflexivity.
  - reflexivity.
Qed.

Lemma utils_handleTrendingGifs_settles_witness :
  commit {| loading := false; error := "Failed to fetch trending GIFs";
            gifs := Some (JArr []) |}
         (Utils.handleTrendingGifs (Utils.minDelay 0 0)
            (answering 30 (Some (JObj [("data", gifs_json [sample_gif])]))) 10 "key")
  = {| loading := false; error := ""; gifs := Some (gifs_json [sample_gif]) |}.
Proof.
  destruct (utils_handleTrendingGifs_settles 0 0
              (answering 30 (Some (JObj [("data", gifs_json [sample_gif])]))) 10 30 "key"
              {| loading := false; error := "Failed to fetch trending GIFs";
                 gifs := Some (JArr []) |}
              _ eq_refl) as (d & Hd & ->).
  injection Hd as <-. reflexivity.
Defined.

(** ** The first helpers *)

(** X12.  The first [handleSearch] builds its 500 ms timer inside each
    call: a successful search writes its items no sooner than 500 ms after
    that call. *)
Theorem legacy_search_floor (API_KEY : option string) (net : network)
    (now lag tp : time) (query : string) (resp : response) :
  all_ws query = false ->
  net (Legacy.search_request API_KEY query) = Settles tp (Fulfilled resp) ->
  truthy (data resp) = true ->
  exists d T,
    member (data resp) "data" = inr d
    /\ T = Nat.max tp (now + 500 + lag)
    /\ now + 500 <= T
    /\ writes (Legacy.handleSearch API_KEY net now lag query)
       = [(now, SetLoading true); (now, SetError "");
          (T, SetGifs d); (T, SetLoading false)].
Proof.
  intros Hq Hn Hb.
  destruct (member_truthy (data resp) "data" Hb) as [d Hd].
  exists d, (Nat.max tp (now + 500 + lag)).
  repeat split; [exact Hd | lia |].
  unfold Legacy.handleSearch. rewrite blank_iff_all_ws, Hq.
  cbn [writes]. rewrite Hn.
  cbn [Legacy.minDelay promise_all2]. unfold async.
  unfold Legacy.handleSearch_after. cbn [await bind ret fst]. rewrite Hb, Hd.
  replace (Nat.max now (Nat.max tp (now + 500 + lag)))
    with (Nat.max tp (now + 500 + lag)) by lia.
  reflexivity.
Qed.

Lemma legacy_search_floor_witness :
  map fst (writes (Legacy.handleSearch (Some "key")
                     (answering 4001 (Some (JObj [("data", JArr [])]))) 4000 0 "cats"))
  = [4000; 4000; 4500; 4500].
Proof.
  destruct (legacy_search_floor (Some "key")
              (answering 4001 (Some (JObj [("data", JArr [])]))) 4000 0 4001 "cats"
              _ eq_refl eq_refl eq_refl) as (d & T & _ & -> & _ & ->).
  reflexivity.
Defined.

(** X13.  The first [handleTrendingGifs] has no delay: the items are
    written at the instant of the answer, with the error cleared. *)
Theorem legacy_trending_has_no_floor (API_KEY : option string) (net : network)
    (now tp : time) (resp : response) (s : State) :
  net (Legacy.trending_request API_KEY) = Settles tp (Fulfilled resp) ->
  truthy (data resp) = true ->
  now <= tp ->
  exists d,
    member (data resp) "data" = inr d
    /\ writes (Legacy.handleTrendingGifs API_KEY net now)
       = [(now, SetLoading true); (now, SetError "");
          (tp, SetGifs d); (tp, SetLoading false)]
    /\ commit s (Legacy.handleTrendingGifs API_KEY net now)
       = {| loading := false; error := ""; gifs := d |}.
Proof.
  intros Hn Hb Hnow.
  destruct (member_truthy (data resp) "data" Hb) as [d Hd].
  exists d. split; [exact Hd|].
  unfold commit, Legacy.handleTrendingGifs. cbn [writes]. rewrite Hn.
  unfold async, Legacy.handleTrendingGifs_after.
  cbn [await bind ret fst]. rewrite Hb, Hd.
  replace (Nat.max now tp) with tp by lia.
  split; reflexivity.
Qed.

Lemma legacy_trending_has_no_floor_witness :
  map fst (writes (Legacy.handleTrendingGifs (Some "key")
                     (answering 3 (Some (JObj [("data", JArr [])]))) 2))
  = [2; 2; 3; 3].
Proof.
  destruct (legacy_trending_has_no_floor (Some "key")
              (answering 3 (Some (JObj [("data", JArr [])]))) 2 3 _ initial
              eq_refl eq_refl ltac:(lia)) as (d & _ & -> & _).
  reflexivity.
Defined.

(** ** Witnesses for the earlier lemmas *)

Lemma quiescent_not_loading_witness :
  loading (apply_writes initial
             [SetLoading true; SetError "Failed to fetch trending GIFs: Network Error";
              SetLoading false]) = false.
Proof.
  apply (quiescent_not_loading (Some "key")
           {| Overlap.store :=
                apply_writes initial
                  [SetLoading true;
                   SetError "Failed to fetch trending GIFs: Network Error";
                   SetLoading false];
              Overlap.owed := [[]] |}).
  - eapply Overlap.steps_more; [eapply Overlap.steps_more; [eapply Overlap.steps_more;
      [eapply Overlap.steps_more; [apply Overlap.steps_refl|]|]|]|].
    + apply (Overlap.step_call (Some "key") initial []
               (Store.LoadTrending (failing 7 "Network Error") 0 0)).
      reflexivity.
    + apply (Overlap.step_write (Some "key") initial [] [] (SetLoading true)).
    + apply (Overlap.step_write (Some "key") _ [] []
               (SetError "Failed to fetch trending GIFs: Network Error")).
    + apply (Overlap.step_write (Some "key") _ [] [] (SetLoading false)).
  - repeat constructor.
Defined.

(** ** The animator on any phrase list *)

Lemma substring_0_0 (p : string) : String.substring 0 0 p = "".
Proof. destruct p; reflexivity. Qed.

Lemma substring_0_length (k : nat) (p : string) :
  k <= String.length p -> String.length (String.substring 0 k p) = k.
Proof.
  revert p. induction k as [|k IH]; intros p H.
  - now rewrite substring_0_0.
  - destruct p as [|c p]; simpl in *; [lia|]. rewrite IH; lia.
Qed.

Lemma substring_0_all (p : string) : String.substring 0 (String.length p) p = p.
Proof. induction p as [|c p IH]; simpl; [reflexivity|]. now rewrite IH. Qed.

Lemma substring_0_prefix (k : nat) (p : string) :
  String.prefix (String.substring 0 k p) p = true.
Proof.
  revert p. induction k as [|k IH]; intros p.
  - rewrite substring_0_0. destruct p; reflexivity.
  - destruct p as [|c p]; simpl; [reflexivity|].
    destruct (ascii_dec c c); [apply IH | congruence].
Qed.

Lemma js_substring_0 (p : string) (k : nat) :
  k <= String.length p ->
  js_substring p 0 (Z.of_nat k) = String.substring 0 k p.
Proof.
  intros H. unfold js_substring.
  replace (Z.min (Z.max 0 (Z.min 0 (Z.of_nat (String.length p))))
                 (Z.max 0 (Z.min (Z.of_nat k) (Z.of_nat (String.length p)))))
    with 0%Z by lia.
  replace (Z.max (Z.max 0 (Z.min 0 (Z.of_nat (String.length p))))
                 (Z.max 0 (Z.min (Z.of_nat k) (Z.of_nat (String.length p)))) - 0)%Z
    with (Z.of_nat k) by lia.
  now rewrite Nat2Z.id.
Qed.

Lemma ticks_add (phrases : list string) (n m : nat) (st : Placeholder.PState) :
  ticks phrases (n + m) st = ticks phrases n (ticks phrases m st).
Proof. induction n as [|n IH]; simpl; [reflexivity|]. now rewrite IH. Qed.

Section OnePhrase.

Variable phrases : list string.
Variable i : nat.
Variable p : string.
Hypothesis Hp : nth_error phrases i = Some p.

Let next : nat := (i + 1) mod List.length phrases.

Lemma typing_step (k : nat) :
  k < String.length p ->
  Placeholder.effect phrases (resting (String.substring 0 k p) false i)
  = Placeholder.Timeout 130 (Some (resting (String.substring 0 (S k) p) false i)).
Proof.
  intros Hk. unfold Placeholder.effect, resting.
  cbn [Placeholder.placeholder Placeholder.isDeleted Placeholder.index negb andb].
  rewrite Hp. cbn [Placeholder.same_text].
  assert (E : String.eqb (String.substring 0 k p) p = false).
  { apply String.eqb_neq. intros E.
    apply (f_equal String.length) in E. rewrite substring_0_length in E; lia. }
  rewrite E. rewrite substring_0_length by lia.
  replace (Z.of_nat k + 1)%Z with (Z.of_nat (S k)) by lia.
  rewrite js_substring_0 by lia. reflexivity.
Qed.

Lemma hold_step :
  Placeholder.effect phrases (resting p false i)
  = Placeholder.Timeout Placeholder.pauseDuration (Some (resting p true i)).
Proof.
  unfold Placeholder.effect, resting.
  cbn [Placeholder.placeholder Placeholder.isDeleted Placeholder.index negb andb].
  rewrite Hp. cbn [Placeholder.same_text]. rewrite String.eqb_refl. reflexivity.
Qed.

Lemma deleting_step (k : nat) :
  S k <= String.length p ->
  Placeholder.effect phrases (resting (String.substring 0 (S k) p) true i)
  = Placeholder.Timeout 80 (Some (resting (String.substring 0 k p) true i)).
Proof.
  intros Hk. unfold Placeholder.effect, resting.
  cbn [Placeholder.placeholder Placeholder.isDeleted Placeholder.index negb andb].
  assert (E : String.eqb (String.substring 0 (S k) p) "" = false).
  { apply String.eqb_neq. intros E.
    apply (f_equal String.length) in E. rewrite substring_0_length in E by lia.
    discriminate E. }
  rewrite E, Hp. rewrite substring_0_length by lia.
  replace (Z.of_nat (S k) - 1)%Z with (Z.of_nat k) by lia.
  rewrite js_substring_0 by lia. reflexivity.
Qed.

Lemma rest_not_deleting (text : string) (j : nat) :
  Placeholder.rest phrases (resting text false j) = resting text false j.
Proof.
  unfold Placeholder.rest, Placeholder.effect, resting.
  cbn [Placeholder.placeholder Placeholder.isDeleted Placeholder.index negb andb].
  destruct (Placeholder.same_text text (nth_error phrases j)); reflexivity.
Qed.

Lemma rest_deleting (k : nat) :
  k <= String.length p ->
  Placeholder.rest phrases (resting (String.substring 0 k p) true i)
  = match k with
    | 0 => resting "" false next
    | S _ => resting (String.substring 0 k p) true i
    end.
Proof.
  intros Hk. destruct k as [|k].
  - rewrite substring_0_0. reflexivity.
  - unfold Placeholder.rest. now rewrite deleting_step.
Qed.

Lemma tick_typing (k : nat) :
  k < String.length p ->
  Placeholder.tick phrases (resting (String.substring 0 k p) false i)
  = resting (String.substring 0 (S k) p) false i.
Proof.
  intros Hk. unfold Placeholder.tick, Placeholder.fire.
  rewrite typing_step by exact Hk. apply rest_not_deleting.
Qed.

Lemma tick_hold :
  Placeholder.tick phrases (resting p false i)
  = match String.length p with
    | 0 => resting "" false next
    | S _ => resting p true i
    end.
Proof.
  unfold Placeholder.tick, Placeholder.fire. rewrite hold_step.
  rewrite <- (substring_0_all p) at 1.
  rewrite rest_deleting by lia.
  destruct (String.length p) eqn:E; [reflexivity|].
  rewrite <- E, substring_0_all. reflexivity.
Qed.

Lemma tick_deleting (k : nat) :
  S k <= String.length p ->
  Placeholder.tick phrases (resting (String.substring 0 (S k) p) true i)
  = match k with
    | 0 => resting "" false next
    | S _ => resting (String.substring 0 k p) true i
    end.
Proof.
  intros Hk. unfold Placeholder.tick, Placeholder.fire.
  rewrite deleting_step by exact Hk. apply rest_deleting. lia.
Qed.

Lemma ticks_typing (k : nat) :
  k <= String.length p ->
  ticks phrases k (resting "" false i) = resting (String.substring 0 k p) false i.
Proof.
  induction k as [|k IH]; intros Hk.
  - now rewrite substring_0_0.
  - cbn [ticks]. rewrite IH by lia. apply tick_typing. lia.
Qed.

Lemma ticks_deleting (j : nat) :
  j < String.length p ->
  ticks phrases j (resting p true i)
  = resting (String.substring 0 (String.length p - j) p) true i.
Proof.
  induction j as [|j IH]; intros Hj.
  - cbn [ticks]. now rewrite Nat.sub_0_r, substring_0_all.
  - cbn [ticks]. rewrite IH by lia.
    replace (String.length p - j) with (S (String.length p - S j)) by lia.
    rewrite tick_deleting by lia.
    destruct (String.length p - S j) eqn:E; [lia|reflexivity].
Qed.

Lemma phrase_cycle_ticks :
  ticks phrases (phrase_ticks p) (resting "" false i) = resting "" false next.
Proof.
  unfold phrase_ticks.
  replace (2 * String.length p + 1)
    with (String.length p + (1 + String.length p)) by lia.
  rewrite !ticks_add, ticks_typing by lia. rewrite substring_0_all.
  cbn [ticks]. rewrite tick_hold.
  destruct (String.length p) as [|m] eqn:E; [reflexivity|].
  cbn [ticks]. rewrite ticks_deleting by lia.
  replace (String.length p - m) with 1 by lia.
  rewrite tick_deleting by lia. reflexivity.
Qed.

End OnePhrase.

(** X15.  From empty text at index [i] the hook types the phrase at [i]
    one character per firing, holds it, deletes it one character per firing,
    and after [2 * length p + 1] firings is at empty text, not deleting, at
    index [(i + 1) mod length phrases]. *)
Theorem one_phrase_round (phrases : list string) (i : nat) (p : string) :
  nth_error phrases i = Some p ->
  (forall k, k <= String.length p ->
     ticks phrases k (resting "" false i)
     = resting (String.substring 0 k p) false i)
  /\ (forall j, j < String.length p ->
        ticks phrases (String.length p + 1 + j) (resting "" false i)
        = resting (String.substring 0 (String.length p - j) p) true i)
  /\ ticks phrases (phrase_ticks p) (resting "" false i)
     = resting "" false ((i + 1) mod List.length phrases).
Proof.
  intros Hp. split; [|split].
  - intros k Hk. now apply ticks_typing.
  - intros j Hj.
    replace (String.length p + 1 + j) with (j + (1 + String.length p)) by lia.
    rewrite !ticks_add, (ticks_typing phrases i p Hp) by lia.
    rewrite substring_0_all. cbn [ticks]. rewrite (tick_hold phrases i p Hp).
    destruct (String.length p) eqn:E; [lia|]. rewrite <- E.
    apply (ticks_deleting phrases i p Hp). lia.
  - now apply phrase_cycle_ticks.
Qed.

Lemma one_phrase_round_witness :
  ticks GiphySearch_phrases 19 (resting "" false 0) = resting "" false 1.
Proof.
  exact (proj2 (proj2 (one_phrase_round GiphySearch_phrases 0 "cute dogs" eq_refl))).
Defined.

Lemma frame_ticks (phrases : list string) (n : nat) :
  Placeholder.frame phrases n = ticks phrases n Placeholder.mount.
Proof.
  induction n as [|n IH]; cbn [Placeholder.frame ticks].
  - apply (rest_not_deleting phrases "" 0).
  - now rewrite IH.
Qed.

Lemma skipn_head {A} (l : list A) (i : nat) (x : A) (tl : list A) :
  skipn i l = x :: tl -> nth_error l i = Some x /\ skipn (S i) l = tl.
Proof.
  revert l. induction i as [|i IH]; intros l H.
  - simpl in H. subst l. split; reflexivity.
  - destruct l as [|y l]; [discriminate H|]. simpl in H. apply (IH l H).
Qed.

Lemma period_cons (p : string) (tl : list string) :
  period (p :: tl) = period tl + phrase_ticks p.
Proof. unfold period. cbn [map]. simpl list_sum. apply Nat.add_comm. Qed.

Lemma walk_phrases (phrases : list string) (todo : list string) (i : nat) :
  todo <> [] ->
  skipn i phrases = todo ->
  i + List.length todo = List.length phrases ->
  ticks phrases (period todo) (resting "" false i) = resting "" false 0.
Proof.
  revert i. induction todo as [|p tl IH]; intros i Hne Hskip Hlen; [congruence|].
  destruct (skipn_head phrases i p tl Hskip) as [Hp Htl].
  rewrite period_cons, ticks_add, (phrase_cycle_ticks phrases i p Hp).
  cbn [List.length] in Hlen.
  destruct tl as [|p' tl'].
  - cbn [List.length] in Hlen.
    replace (i + 1) with (List.length phrases) by lia.
    rewrite Nat.Div0.mod_same. reflexivity.
  - rewrite Nat.mod_small by (cbn [List.length] in Hlen; lia).
    replace (i + 1) with (S i) by lia.
    apply IH; [discriminate | exact Htl | cbn [List.length] in *; lia].
Qed.

(** X16.  With at least one phrase the animation is periodic: after
    [2 * length p + 1] timer firings for each phrase [p] of the list it is
    back in the state of a fresh mount, whatever the phrases are. *)
Theorem animation_returns_to_start (phrases : list string) (n : nat) :
  phrases <> [] ->
  Placeholder.frame phrases (n + period phrases) = Placeholder.frame phrases n.
Proof.
  intros Hne. apply frame_period.
  rewrite !frame_ticks. cbn [ticks].
  apply (walk_phrases phrases phrases 0 Hne); reflexivity.
Qed.

Lemma next_in_phrase (phrases : list string) (i : nat) (p : string) :
  nth_error phrases i = Some p ->
  in_phrase phrases (resting "" false ((i + 1) mod List.length phrases)).
Proof.
  intros Hp.
  assert (Hn : List.length phrases <> 0).
  { destruct phrases; [destruct i; discriminate Hp | discriminate]. }
  destruct (nth_error phrases ((i + 1) mod List.length phrases)) as [p'|] eqn:E.
  - exists p', 0. cbn. rewrite E, substring_0_0.
    repeat split; [lia | discriminate].
  - apply nth_error_None in E.
    pose proof (Nat.mod_upper_bound (i + 1) (List.length phrases) Hn). lia.
Qed.

Lemma tick_in_phrase (phrases : list string) (st : Placeholder.PState) :
  in_phrase phrases st -> in_phrase phrases (Placeholder.tick phrases st).
Proof.
  intros (p & k & Hp & Hk & Htext & Hdel).
  destruct st as [text d i]. cbn in Hp, Htext, Hdel. subst text.
  change {| Placeholder.placeholder := String.substring 0 k p;
            Placeholder.isDeleted := d; Placeholder.index := i |}
    with (resting (String.substring 0 k p) d i).
  destruct d.
  - destruct k as [|k]; [specialize (Hdel eq_refl); lia|].
    rewrite (tick_deleting phrases i p Hp k Hk).
    destruct k as [|k].
    + apply (next_in_phrase phrases i p Hp).
    + exists p, (S k). cbn. repeat split; auto; lia.
  - destruct (Nat.eq_dec k (String.length p)) as [->|Hlt].
    + rewrite substring_0_all, (tick_hold phrases i p Hp).
      destruct (String.length p) eqn:E.
      * apply (next_in_phrase phrases i p Hp).
      * exists p, (String.length p). cbn. rewrite substring_0_all.
        repeat split; auto; lia.
    + rewrite (tick_typing phrases i p Hp k) by lia.
      exists p, (S k). cbn. repeat split; auto; try lia; try discriminate.
Qed.

(** X17.  With at least one phrase, at every step the index is inside the
    list and the text returned is a prefix of the phrase at that index. *)
Theorem text_is_prefix_of_phrase (phrases : list string) (n : nat) :
  phrases <> [] ->
  Placeholder.index (Placeholder.frame phrases n) < List.length phrases
  /\ exists p,
       nth_error phrases (Placeholder.index (Placeholder.frame phrases n)) = Some p
       /\ String.prefix (Placeholder.useAnimatedPlaceHolder phrases n) p = true.
Proof.
  intros Hne.
  assert (H : in_phrase phrases (Placeholder.frame phrases n)).
  { rewrite frame_ticks. induction n as [|n IH]; cbn [ticks].
    - destruct phrases as [|p tl]; [congruence|].
      exists p, 0. cbn. rewrite substring_0_0.
      repeat split; try reflexivity; try lia; discriminate.
    - now apply tick_in_phrase. }
  destruct H as (p & k & Hp & Hk & Htext & _).
  split.
  - apply nth_error_Some. congruence.
  - exists p. split; [exact Hp|].
    unfold Placeholder.useAnimatedPlaceHolder. rewrite Htext.
    apply substring_0_prefix.
Qed.

(** X18.  With an empty phrase list nothing is ever shown: the timer
    callback throws on [phrases[0]] being [undefined] and the hook stays in
    its mount state. *)
Theorem no_phrases_no_animation (n : nat) :
  Placeholder.frame [] n = Placeholder.mount
  /\ Placeholder.effect [] Placeholder.mount = Placeholder.Timeout 130 None.
Proof.
  split; [|reflexivity].
  induction n as [|n IH]; cbn [Placeholder.frame]; [reflexivity|].
  rewrite IH. reflexivity.
Qed.

Lemma ticks_succ_r (phrases : list string) (n : nat) (st : Placeholder.PState) :
  ticks phrases (S n) st = ticks phrases n (Placeholder.tick phrases st).
Proof. induction n as [|n IH]; [reflexivity|]. cbn [ticks] in *. now rewrite IH. Qed.

Lemma elapsed_add (phrases : list string) (m n : nat) (st : Placeholder.PState) :
  elapsed phrases (m + n) st
  = elapsed phrases m st + elapsed phrases n (ticks phrases m st).
Proof.
  revert st. induction m as [|m IH]; intros st; [reflexivity|].
  cbn [Nat.add elapsed]. rewrite IH, ticks_succ_r. lia.
Qed.

Section OnePhraseTiming.

Variable phrases : list string.
Variable i : nat.
Variable p : string.
Hypothesis Hp : nth_error phrases i = Some p.

Lemma elapsed_typing (k : nat) :
  k <= String.length p ->
  elapsed phrases k (resting "" false i) = 130 * k.
Proof.
  induction k as [|k IH]; intros Hk; [reflexivity|].
  replace (S k) with (k + 1) by lia.
  rewrite elapsed_add, IH by lia.
  rewrite (ticks_typing phrases i p Hp) by lia.
  cbn [elapsed]. unfold Placeholder.shown_for.
  rewrite (typing_step phrases i p Hp) by lia. lia.
Qed.

Lemma elapsed_deleting (j : nat) :
  j <= String.length p ->
  elapsed phrases j (resting p true i) = 80 * j.
Proof.
  induction j as [|j IH]; intros Hj; [reflexivity|].
  replace (S j) with (j + 1) by lia.
  rewrite elapsed_add, IH by lia.
  rewrite (ticks_deleting phrases i p Hp) by lia.
  cbn [elapsed]. unfold Placeholder.shown_for.
  replace (String.length p - j) with (S (String.length p - S j)) by lia.
  rewrite (deleting_step phrases i p Hp) by lia. lia.
Qed.

(** X19.  One phrase of length [L] takes [130 * L] ms of typing, the
    1500 ms pause and [80 * L] ms of deleting. *)
Theorem phrase_cycle_duration :
  elapsed phrases (phrase_ticks p) (resting "" false i)
  = 130 * String.length p + Placeholder.pauseDuration + 80 * String.length p.
Proof.
  unfold phrase_ticks.
  replace (2 * String.length p + 1)
    with (String.length p + (1 + String.length p)) by lia.
  rewrite !elapsed_add, elapsed_typing by lia.
  rewrite (ticks_typing phrases i p Hp) by lia. rewrite substring_0_all.
  cbn [elapsed ticks]. unfold Placeholder.shown_for at 1.
  rewrite (hold_step phrases i p Hp), (tick_hold phrases i p Hp).
  destruct (String.length p) as [|m] eqn:E.
  - reflexivity.
  - rewrite <- E, elapsed_deleting by lia. lia.
Qed.

End OnePhraseTiming.

Lemma animation_returns_to_start_witness :
  Placeholder.frame GiphySearch_phrases (0 + period GiphySearch_phrases)
  = Placeholder.frame GiphySearch_phrases 0.
Proof.
  apply (animation_returns_to_start GiphySearch_phrases 0). discriminate.
Defined.

Lemma text_is_prefix_of_phrase_witness :
  Placeholder.index (Placeholder.frame GiphySearch_phrases 25)
  < List.length GiphySearch_phrases.
Proof.
  apply (text_is_prefix_of_phrase GiphySearch_phrases 25). discriminate.
Defined.

Lemma phrase_cycle_duration_witness :
  elapsed GiphySearch_phrases (phrase_ticks "cute dogs") (resting "" false 0)
  = 130 * 9 + Placeholder.pauseDuration + 80 * 9.
Proof.
  exact (phrase_cycle_duration GiphySearch_phrases 0 "cute dogs" eq_refl).
Defined.

(** ** The component *)

Lemma gif_card_of_item (g : GifObject) : View.gif_card (gif_json g) = inr (card_of g).
Proof. reflexivity. Qed.

Lemma map_cards_of_items (l : list GifObject) :
  View.map_cards (map gif_json l) = inr (map card_of l).
Proof.
  induction l as [|g l IH]; [reflexivity|].
  cbn [map View.map_cards]. rewrite gif_card_of_item, IH. reflexivity.
Qed.

(** X21.  After a search answered with a list of items under [data], the
    component renders without throwing: one card per item, in the order
    received, each with the item's id, height, page url, image url and short
    url; the spinner is off and the error text is the one shown before. *)
Theorem fetched_items_are_shown_in_order (API_KEY : option string) (net : network)
    (now lag tp : time) (query : string) (s : State)
    (l : list GifObject) (others : list (string * json)) :
  lookup_field "data" others = None ->
  net (Provider.search_request API_KEY query)
  = Settles tp (Fulfilled {| data := Some (JObj (("data", gifs_json l) :: others)) |}) ->
  View.GiphySearch (commit s (Provider.searchGifs API_KEY net now lag query))
  = inr {| View.banner := if String.eqb (error s) "" then None else Some (error s);
           View.spinner := false;
           View.grid := map card_of l |}.
Proof.
  intros Ho Hn.
  assert (E : commit s (Provider.searchGifs API_KEY net now lag query)
              = {| loading := false; error := error s; gifs := Some (gifs_json l) |}).
  { unfold commit, Provider.searchGifs.
    rewrite (search_writes_fulfilled API_KEY net now lag query tp _ Hn).
    rewrite stamp_writes.
    unfold Provider.handleSearch_after.
    cbn [await bind ret data truthy member lift lookup_field].
    rewrite Ho, String.eqb_refl. reflexivity. }
  rewrite E. unfold View.GiphySearch, View.results_grid, gifs_json.
  cbn [gifs error loading]. rewrite map_cards_of_items. reflexivity.
Qed.

Lemma fetched_items_are_shown_in_order_witness :
  View.GiphySearch
    (commit initial
       (Provider.searchGifs (Some "key")
          (answering 80 (Some (JObj [("data", gifs_json [sample_gif]);
                                     ("meta", JObj [("status", JNum 200)])])))
          0 0 "cats"))
  = inr {| View.banner := None; View.spinner := false;
           View.grid := [card_of sample_gif] |}.
Proof.
  exact (fetched_items_are_shown_in_order (Some "key")
           (answering 80 (Some (JObj [("data", gifs_json [sample_gif]);
                                      ("meta", JObj [("status", JNum 200)])])))
           0 0 80 "cats" initial [sample_gif] [("meta", JObj [("status", JNum 200)])]
           eq_refl eq_refl).
Defined.

(** X22.  After a search answered with an object that has no [data]
    field, the next render of the component throws: [gifs] is [undefined]
    and has no [map]. *)
Theorem body_without_data_breaks_render (API_KEY : option string) (net : network)
    (now lag tp : time) (query : string) (s : State) (fields : list (string * json)) :
  lookup_field "data" fields = None ->
  net (Provider.search_request API_KEY query)
  = Settles tp (Fulfilled {| data := Some (JObj fields) |}) ->
  gifs (commit s (Provider.searchGifs API_KEY net now lag query)) = None
  /\ exists e,
       View.GiphySearch (commit s (Provider.searchGifs API_KEY net now lag query))
       = inl e.
Proof.
  intros Ho Hn.
  unfold commit, Provider.searchGifs.
  rewrite (search_writes_fulfilled API_KEY net now lag query tp _ Hn).
  rewrite stamp_writes.
  unfold Provider.handleSearch_after.
  cbn [await bind ret data truthy member lift].
  rewrite Ho. split; [reflexivity|]. eexists. reflexivity.
Qed.

Lemma body_without_data_breaks_render_witness :
  gifs (commit initial
          (Provider.searchGifs (Some "key")
             (answering 30 (Some (JObj [("message", JStr "rate limited")]))) 0 0 "cats"))
  = None.
Proof.
  exact (proj1 (body_without_data_breaks_render (Some "key")
                  (answering 30 (Some (JObj [("message", JStr "rate limited")])))
                  0 0 30 "cats" initial [("message", JStr "rate limited")]
                  eq_refl eq_refl)).
Defined.
